(** * Conversational memory engine: a shallow embedding and its properties

    The development follows the three JavaScript modules of the console
    prototype:

    - [memoryProcessor.js]: [processConversations], [summarizeConversation];
    - [vectorDB.js]: [initializeChroma], [generateEmbedding],
      [searchMemories], [storeMemories], [getAllMemories],
      [clearAllMemories];
    - the console application: [processSummaries], [reformulateQuery],
      [handleChat].

    The Discord handler [handleAIChat] and the test scripts are not
    embedded.

    Asynchronous functions are embedded in a state-and-exception monad over
    a [World] that holds the module-level variables of the program, the
    content of the vector collection and the trace of the requests sent to
    the outside.  What the outside answers is read from a [Host].  Calls to
    [console.log] and [console.error] have no effect on any value and are
    left out. *)

From Stdlib Require Import String Ascii.
From Stdlib Require Import DecimalString DecimalNat DecimalN.
From Stdlib Require Import Floats.PrimFloat.
From Stdlib Require Import Uint63.
From Stdlib Require Import NArith ZArith PeanoNat Bool Lia List.
Import ListNotations.

Set Warnings "-inexact-float".

(** ** JavaScript strings

    A string is its sequence of UTF-16 code units; [length] is the
    [.length] property and [++] is concatenation. *)

Definition jsstring := list N.

(** An ASCII literal of the source text. *)
Definition lit (s : string) : jsstring :=
  map N_of_ascii (list_ascii_of_string s).
Arguments lit s%_string.

Definition nl : jsstring := [10%N].
Definition dquote : jsstring := [34%N].

(** The code units matched by [\s] and stripped by [trim]: WhiteSpace and
    LineTerminator of ECMA-262. *)
Definition is_space (c : N) : bool :=
  ((9 <=? c) && (c <=? 13) || (c =? 32) || (c =? 160) || (c =? 5760)
   || (8192 <=? c) && (c <=? 8202) || (c =? 8232) || (c =? 8233)
   || (c =? 8239) || (c =? 8287) || (c =? 12288) || (c =? 65279))%N.

Fixpoint dropWhile (p : N -> bool) (s : jsstring) : jsstring :=
  match s with
  | [] => []
  | c :: s' => if p c then dropWhile p s' else s
  end.

(** [String.prototype.trim]. *)
Definition trim (s : jsstring) : jsstring :=
  rev (dropWhile is_space (rev (dropWhile is_space s))).

(** [s.split(d)] for a one-character separator [d]; [cur] is the piece
    being read. *)
Fixpoint split_char_from (d : N) (cur s : jsstring) : list jsstring :=
  match s with
  | [] => [cur]
  | c :: s' =>
      if (c =? d)%N then cur :: split_char_from d [] s'
      else split_char_from d (cur ++ [c]) s'
  end.

Definition split_char (d : N) (s : jsstring) : list jsstring :=
  split_char_from d [] s.

(** [s.split(/\s+/)]: every maximal run of white space is one separator.
    [in_sep] holds while such a run is being consumed. *)
Fixpoint split_ws_from (cur : jsstring) (in_sep : bool) (s : jsstring)
  : list jsstring :=
  match s with
  | [] => [cur]
  | c :: s' =>
      if is_space c then
        if in_sep then split_ws_from [] true s'
        else cur :: split_ws_from [] true s'
      else split_ws_from (cur ++ [c]) false s'
  end.

Definition split_ws (s : jsstring) : list jsstring :=
  split_ws_from [] false s.

(** [Array.prototype.join]. *)
Fixpoint join (sep : jsstring) (l : list jsstring) : jsstring :=
  match l with
  | [] => []
  | [x] => x
  | x :: l' => x ++ sep ++ join sep l'
  end.

(** [arr.slice(-n)]: the last [n] elements. *)
Definition slice_last {A} (n : nat) (l : list A) : list A :=
  skipn (length l - n) l.

(** [arr.map((x, idx) => f idx x)]. *)
Fixpoint mapi_from {A B} (f : nat -> A -> B) (idx : nat) (l : list A)
  : list B :=
  match l with
  | [] => []
  | x :: l' => f idx x :: mapi_from f (S idx) l'
  end.

Definition mapi {A B} (f : nat -> A -> B) (l : list A) : list B :=
  mapi_from f 0 l.

(** A non-negative integer inside a template literal. *)
Definition show_N (n : N) : jsstring :=
  lit (NilEmpty.string_of_uint (N.to_uint n)).

Definition show_nat (n : nat) : jsstring :=
  lit (NilEmpty.string_of_uint (Nat.to_uint n)).

(** Lower-casing of the ASCII letters, which is what [toLowerCase] does on
    ASCII text; used where a concrete host is built. *)
Definition ascii_lower (s : jsstring) : jsstring :=
  map (fun c => if ((65 <=? c) && (c <=? 90))%N then (c + 32)%N else c) s.

(** The number of whitespace-separated words of a string: its maximal runs
    of code units that are not white space.  [prev_space] tells whether the
    previous code unit was white space (or the string starts here). *)
Fixpoint count_words (prev_space : bool) (s : jsstring) : nat :=
  match s with
  | [] => 0
  | c :: s' =>
      if is_space c then count_words true s'
      else (if prev_space then 1 else 0) + count_words false s'
  end.

Definition word_count (s : jsstring) : nat := count_words true s.

(** ** Values exchanged with the outside *)

Inductive Role := system | user | assistant.

Definition role_name (r : Role) : jsstring :=
  match r with
  | system => lit "system"
  | user => lit "user"
  | assistant => lit "assistant"
  end.

(** A turn of the conversation, [{role, content}]. *)
Record Message := { role : Role; content : jsstring }.

(** The argument of [openai.chat.completions.create]. *)
Record GenRequest := {
  model : jsstring;
  messages : list Message;
  max_tokens : N;
  temperature : float
}.

(** A thrown [Error]: its message and, for API errors, the HTTP status. *)
Record JsError := { message : jsstring; status : option N }.

Inductive result (A : Type) :=
| Ok (a : A)
| Err (e : JsError).
Arguments Ok {A} a.
Arguments Err {A} e.

Definition embedding := list float.

(** The metadata object of a chunk: its properties in insertion order. *)
Inductive MetaValue :=
| VStr (s : jsstring)
| VNum (n : nat).

Definition Metadata := list (string * MetaValue).

Fixpoint prop (key : string) (m : Metadata) : option MetaValue :=
  match m with
  | [] => None
  | (k, v) :: m' => if String.eqb k key then Some v else prop key m'
  end.

(** A memory chunk, [{narrative, metadata}]. *)
Record Chunk := { narrative : jsstring; metadata : Metadata }.

(** A record of the vector collection. *)
Record StoredRecord := {
  rec_id : jsstring;
  rec_embedding : embedding;
  rec_document : jsstring;
  rec_metadata : Metadata
}.

(** What [collection.get] answers: parallel arrays. *)
Record GetResult := {
  g_ids : list jsstring;
  g_documents : list jsstring;
  g_metadatas : list Metadata
}.

(** What [collection.query] answers: one inner array per query embedding. *)
Record QueryResult := {
  q_documents : list (list jsstring);
  q_metadatas : list (list Metadata);
  q_distances : list (list float)
}.

(** An element of the array returned by [searchMemories]; [distance] is
    [undefined] when the backend sent none for that position. *)
Record SearchResult := {
  sr_narrative : jsstring;
  sr_metadata : Metadata;
  sr_distance : option float
}.

(** An element of the array returned by [getAllMemories]. *)
Record StoredMemory := {
  sm_id : option jsstring;
  sm_narrative : jsstring;
  sm_metadata : Metadata
}.

(** ** The world and the host *)

(** A request sent to the outside. *)
Inductive Call :=
| CallComplete (req : GenRequest)
| CallEmbed (input : jsstring)
| CallClock
| CallGetOrCreateCollection
| CallCount
| CallGet (limit : option nat)
| CallQuery (e : embedding) (nResults : Z)
| CallAdd (ids : list jsstring)
| CallDelete (ids : list jsstring).

Record World := {
  trace : list Call;                 (* requests so far, the latest first *)
  conversationCache : list Message;  (* console application *)
  currentSummary : jsstring;         (* console application *)
  client : bool;                     (* vectorDB.js: [client] is set *)
  collection : bool;                 (* vectorDB.js: [collection] is set *)
  backend : list StoredRecord        (* content of the [memories] collection *)
}.

(** The time of a request is the number of requests made before it. *)
Abbreviation now w := (length (trace w)).

(** The answers of the outside.  Each may depend on the time of the
    request.  [toLowerCase] and [toISOString] are the built-ins of the
    JavaScript runtime. *)
Record Host := {
  complete : nat -> GenRequest -> result jsstring;
  embed : nat -> jsstring -> result embedding;
  clock : nat -> N;
  backend_fault : nat -> option JsError;
  rank : nat -> list StoredRecord -> embedding -> Z -> QueryResult;
  toISOString : N -> jsstring;
  toLowerCase : jsstring -> jsstring
}.

(** ** The monad of asynchronous functions *)

Definition M (A : Type) : Type := World -> result A * World.

Definition ret {A} (a : A) : M A := fun w => (Ok a, w).

Definition throw {A} (e : JsError) : M A := fun w => (Err e, w).

Definition bind {A B} (m : M A) (k : A -> M B) : M B :=
  fun w =>
    match m w with
    | (Ok a, w') => k a w'
    | (Err e, w') => (Err e, w')
    end.

(** [try { m } catch (error) { handler error }]: the world keeps what [m]
    did before it threw. *)
Definition try_catch {A} (m : M A) (handler : JsError -> M A) : M A :=
  fun w =>
    match m w with
    | (Ok a, w') => (Ok a, w')
    | (Err e, w') => handler e w'
    end.

Declare Scope js_scope.
Delimit Scope js_scope with js.
Notation "x <- m ;; k" := (bind m (fun x => k))
  (at level 61, m at next level, right associativity) : js_scope.
Notation "m ;;; k" := (bind m (fun _ => k))
  (at level 61, right associativity) : js_scope.
Open Scope js_scope.

Fixpoint mapM {A B} (f : A -> M B) (l : list A) : M (list B) :=
  match l with
  | [] => ret []
  | x :: l' => y <- f x ;; ys <- mapM f l' ;; ret (y :: ys)
  end.

Fixpoint mapiM_from {A B} (f : nat -> A -> M B) (idx : nat) (l : list A)
  : M (list B) :=
  match l with
  | [] => ret []
  | x :: l' => y <- f idx x ;; ys <- mapiM_from f (S idx) l' ;; ret (y :: ys)
  end.

Definition mapiM {A B} (f : nat -> A -> M B) (l : list A) : M (list B) :=
  mapiM_from f 0 l.

Definition record_call (c : Call) (w : World) : World :=
  {| trace := c :: trace w;
     conversationCache := conversationCache w;
     currentSummary := currentSummary w;
     client := client w;
     collection := collection w;
     backend := backend w |}.

Definition set_backend (b : list StoredRecord) (w : World) : World :=
  {| trace := trace w;
     conversationCache := conversationCache w;
     currentSummary := currentSummary w;
     client := client w;
     collection := collection w;
     backend := b |}.

Definition set_client (c : bool) (w : World) : World :=
  {| trace := trace w;
     conversationCache := conversationCache w;
     currentSummary := currentSummary w;
     client := c;
     collection := collection w;
     backend := backend w |}.

Definition set_collection (c : bool) (w : World) : World :=
  {| trace := trace w;
     conversationCache := conversationCache w;
     currentSummary := currentSummary w;
     client := client w;
     collection := c;
     backend := backend w |}.

Definition set_conversationCache (c : list Message) (w : World) : World :=
  {| trace := trace w;
     conversationCache := c;
     currentSummary := currentSummary w;
     client := client w;
     collection := collection w;
     backend := backend w |}.

Definition set_currentSummary (s : jsstring) (w : World) : World :=
  {| trace := trace w;
     conversationCache := conversationCache w;
     currentSummary := s;
     client := client w;
     collection := collection w;
     backend := backend w |}.

(** The error thrown by the runtime when a property of [null] is read. *)
Definition TypeError : JsError :=
  {| message := lit "Cannot read properties of null"; status := None |}.

Definition get_world : M World := fun w => (Ok w, w).

Definition update (f : World -> World) : M unit := fun w => (Ok tt, f w).

(** A string is truthy when it is not empty. *)
Definition truthy (s : jsstring) : bool := negb (length s =? 0).

Fixpoint jsstring_eqb (s t : jsstring) : bool :=
  match s, t with
  | [], [] => true
  | c :: s', d :: t' => (c =? d)%N && jsstring_eqb s' t'
  | _, _ => false
  end.

Definition mem_id (x : jsstring) (ids : list jsstring) : bool :=
  existsb (jsstring_eqb x) ids.

(** ** The Vector Backend

    The collection lives in the chromadb server, outside the program.  It
    is modelled after its interface (add, query, get, delete, count) as a
    list of records.  Every request can fail, as the host decides. *)

(** The records made of the parallel arrays passed to [add]. *)
Fixpoint zip_records (ids : list jsstring) (es : list embedding)
  (docs : list jsstring) (ms : list Metadata) : list StoredRecord :=
  match ids, es, docs, ms with
  | i :: ids', e :: es', d :: docs', m :: ms' =>
      {| rec_id := i; rec_embedding := e; rec_document := d;
         rec_metadata := m |} :: zip_records ids' es' docs' ms'
  | _, _, _, _ => []
  end.

(** Modelled from the spec: [delete(ids)] of the Vector Backend removes
    the records whose identifier is listed. *)
Definition delete_records (ids : list jsstring) (store : list StoredRecord)
  : list StoredRecord :=
  filter (fun r => negb (mem_id (rec_id r) ids)) store.

(** Modelled from the spec: [get] of the Vector Backend returns the
    records in stored order, the first [limit] of them when a limit is
    given. *)
Definition get_records (limit : option nat) (store : list StoredRecord)
  : GetResult :=
  let rs := match limit with Some n => firstn n store | None => store end in
  {| g_ids := map rec_id rs;
     g_documents := map rec_document rs;
     g_metadatas := map rec_metadata rs |}.

Section Program.

Variable h : Host.

(** *** Requests *)

(** [openai.chat.completions.create(req)], then
    [response.choices[0].message.content]. *)
Definition chat_completions_create (req : GenRequest) : M jsstring :=
  fun w => (complete h (now w) req, record_call (CallComplete req) w).

(** [openai.embeddings.create], then [response.data[0].embedding]. *)
Definition embeddings_create (input : jsstring) : M embedding :=
  fun w => (embed h (now w) input, record_call (CallEmbed input) w).

(** [Date.now()], and the time read by [new Date()]. *)
Definition Date_now : M N :=
  fun w => (Ok (clock h (now w)), record_call CallClock w).

(** A request to the Vector Backend: it fails when the host says so, and
    otherwise answers and takes effect on the collection. *)
Definition backend_request {A} (c : Call) (answer : World -> A)
  (effect : list StoredRecord -> list StoredRecord) : M A :=
  fun w =>
    match backend_fault h (now w) with
    | Some e => (Err e, record_call c w)
    | None => (Ok (answer w), record_call c (set_backend (effect (backend w)) w))
    end.

(** A method call on the module variable [collection], which is [null]
    until [initializeChroma] has succeeded. *)
Definition on_collection {A} (m : M A) : M A :=
  fun w => if collection w then m w else (Err TypeError, w).

Definition getOrCreateCollection : M unit :=
  backend_request CallGetOrCreateCollection (fun _ => tt) (fun b => b).

(** Modelled from the spec: [count] of the Vector Backend is the number of
    records. *)
Definition collection_count : M nat :=
  on_collection
    (backend_request CallCount (fun w => length (backend w)) (fun b => b)).

Definition collection_get (limit : option nat) : M GetResult :=
  on_collection
    (backend_request (CallGet limit) (fun w => get_records limit (backend w))
       (fun b => b)).

Definition collection_delete (ids : list jsstring) : M unit :=
  on_collection
    (backend_request (CallDelete ids) (fun _ => tt) (delete_records ids)).

(** Modelled from the spec: [add] of the Vector Backend appends the
    records. *)
Definition collection_add (ids : list jsstring) (es : list embedding)
  (docs : list jsstring) (ms : list Metadata) : M unit :=
  on_collection
    (backend_request (CallAdd ids) (fun _ => tt)
       (fun b => b ++ zip_records ids es docs ms)).

(** Modelled from the spec: [query] of the Vector Backend; which records
    it returns, and at which distances, is left to the host. *)
Definition collection_query (e : embedding) (nResults : Z) : M QueryResult :=
  on_collection
    (backend_request (CallQuery e nResults)
       (fun w => rank h (now w) (backend w) e nResults) (fun b => b)).

(** *** memoryProcessor.js *)

Definition gpt_4o : jsstring := lit "gpt-4o".
Definition gpt_4o_mini : jsstring := lit "gpt-4o-mini".

Definition extraction_system : jsstring :=
  lit "You are a long-term memory system. Extract and consolidate important facts from conversations. Each memory chunk should be self-contained (readable independently), focus on facts not conversation flow, and capture what someone would remember long-term. Combine related information. Output only memory chunks separated by |.".

Definition extraction_prompt (combinedSummaries : jsstring) : jsstring :=
  join nl [
    lit "Extract important facts and information from these conversation summaries. Think like long-term human memory - what would someone remember weeks later?";
    [];
    lit "CRITICAL RULES:";
    lit "1. Each chunk must be SELF-CONTAINED and make sense on its own";
    lit "2. Focus on FACTS and ATTRIBUTES, not conversation flow";
    lit "3. Extract WHO, WHAT, WHERE, WHEN - not " ++ dquote ++ lit "discussed" ++ dquote ++ lit " or " ++ dquote ++ lit "shifted to" ++ dquote;
    lit "4. Combine related information into one chunk";
    lit "5. Keep chunks 2-4 sentences, focused on one topic";
    lit "6. Separate unrelated topics with | character";
    [];
    lit "What to extract:";
    lit "- Personal information (name, job, location, preferences, goals)";
    lit "- Specific facts and details (numbers, dates, names)";
    lit "- Skills, knowledge, or capabilities demonstrated";
    lit "- Preferences, likes/dislikes, constraints";
    lit "- Plans, goals, or future intentions";
    [];
    lit "BAD (conversation flow): " ++ dquote ++ lit "User asked about Roman history. Conversation shifted to programming." ++ dquote;
    lit "GOOD (facts only): " ++ dquote ++ lit "User is interested in Python and web development." ++ dquote;
    [];
    lit "BAD (fragmented): " ++ dquote ++ lit "User moved to Tokyo. | User speaks Portuguese. | User misses Brazilian food." ++ dquote;
    lit "GOOD (self-contained): " ++ dquote ++ lit "User is Brazilian (speaks Portuguese), recently moved to Tokyo for work, and is looking for Brazilian food there while learning Japanese." ++ dquote;
    [];
    lit "BAD (too detailed): " ++ dquote ++ lit "Assistant asked about first emperor of Rome, user correctly answered Augustus, demonstrating knowledge of Roman history." ++ dquote;
    lit "GOOD (high-level): " ++ dquote ++ lit "User has knowledge of Roman history." ++ dquote;
    [];
    lit "BAD (incomplete context): " ++ dquote ++ lit "They miss Brazilian food and want to find it in Tokyo." ++ dquote;
    lit "GOOD (complete context): " ++ dquote ++ lit "User recently moved to Tokyo and misses Brazilian food from home." ++ dquote;
    [];
    lit "Summaries:";
    combinedSummaries;
    [];
    lit "Extract the key facts as self-contained chunks, separated by |."
  ].

Definition extraction_request (summaries : list jsstring) : GenRequest :=
  let combinedSummaries :=
    join (nl ++ nl)
      (mapi (fun idx s =>
               lit "Summary " ++ show_nat (idx + 1) ++ lit ":" ++ nl ++ s)
         summaries) in
  {| model := gpt_4o;
     messages :=
       [ {| role := system; content := extraction_system |};
         {| role := user; content := extraction_prompt combinedSummaries |} ];
     temperature := 0.7;
     max_tokens := 2500 |}.

(** The test of the second [filter]: the word count of a fragment. *)
Definition wordCount (chunk : jsstring) : nat := length (split_ws chunk).

Definition chunkTexts (narrativeText : jsstring) : list jsstring :=
  filter (fun chunk => (10 <=? wordCount chunk) && (wordCount chunk <=? 200))
    (filter (fun chunk => 0 <? length chunk)
       (map trim (split_char 124 narrativeText))).

(** The [topics] array of a narrative. *)
Definition topics_of (narrative : jsstring) : list jsstring :=
  let words := split_ws (toLowerCase h narrative) in
  firstn 3 (filter (fun word => 5 <? length word) words).

(** The [metadata] object of a narrative created at [timestamp]. *)
Definition chunk_metadata (timestamp narrative : jsstring) : Metadata :=
  let metadata :=
    [ ("timestamp"%string, VStr timestamp);
      ("source"%string, VStr (lit "conversation_summary"));
      ("chunk_length"%string, VNum (length narrative)) ] in
  let topics := topics_of narrative in
  if 0 <? length topics
  then metadata ++ [("topics"%string, VStr (join (lit ", ") topics))]
  else metadata.

(** The body of [chunkTexts.map(narrative => ...)]; [new Date()] reads the
    clock. *)
Definition make_chunk (narrative : jsstring) : M Chunk :=
  t <- Date_now ;;
  ret {| narrative := narrative;
         metadata := chunk_metadata (toISOString h t) narrative |}.

(** [summaries] is [None] when the argument is [null] or [undefined]. *)
Definition processConversations (summaries : option (list jsstring))
  : M (list Chunk) :=
  try_catch
    (match summaries with
     | None | Some [] => ret []
     | Some summaries =>
         content <- chat_completions_create (extraction_request summaries) ;;
         let narrativeText := trim content in
         mapM make_chunk (chunkTexts narrativeText)
     end)
    (fun error => throw error).

Definition summary_request (conversationCache : list Message) : GenRequest :=
  let conversationText :=
    fold_left (fun text msg => text ++ content msg ++ nl) conversationCache []
    ++ nl ++ lit "summary:" in
  {| model := gpt_4o;
     messages :=
       [ {| role := system;
            content := lit "Summarize all the context in this following chat conversation concisely." |};
         {| role := user; content := conversationText |} ];
     temperature := 0.12;
     max_tokens := 1000 |}.

Definition summarizeConversation (conversationCache : list Message)
  : M jsstring :=
  try_catch
    (chat_completions_create (summary_request conversationCache))
    (fun error => throw error).

(** *** vectorDB.js *)

(** Returns the module variable [collection]: [true] for the handle,
    [false] for [null]. *)
Definition initializeChroma : M bool :=
  w <- get_world ;;
  (if negb (client w) then
     update (set_client true) ;;;
     try_catch
       (getOrCreateCollection ;;; update (set_collection true))
       (fun error => throw error)
   else ret tt) ;;;
  w <- get_world ;;
  ret (collection w).

Definition generateEmbedding (text : jsstring) : M embedding :=
  try_catch (embeddings_create text) (fun error => throw error).

(** The object built for the document at [idx] of [results.documents[0]]. *)
Definition search_result (results : QueryResult) (idx : nat) (doc : jsstring)
  : M SearchResult :=
  match q_metadatas results, q_distances results with
  | metadatas0 :: _, distances0 :: _ =>
      ret {| sr_narrative := doc;
             sr_metadata := nth idx metadatas0 [];
             sr_distance := nth_error distances0 idx |}
  | _, _ => throw TypeError
  end.

(** The default value of [limit] is not used by any caller. *)
Definition searchMemories (query : jsstring) (limit : Z)
  : M (list SearchResult) :=
  try_catch
    (initializeChroma ;;;
     queryEmbedding <- generateEmbedding query ;;
     results <- collection_query queryEmbedding limit ;;
     match q_documents results with
     | documents0 :: _ =>
         if 0 <? length documents0
         then mapiM (search_result results) documents0
         else ret []
     | [] => ret []
     end)
    (fun error => ret []).

(** The identifier of the chunk at [idx], made at time [t]. *)
Definition chunk_id (t : N) (idx : nat) : jsstring :=
  lit "chunk_" ++ show_N t ++ lit "_" ++ show_nat idx.

(** The array [ids]: [Date.now()] is read once for each chunk. *)
Definition generate_ids (chunks : list Chunk) : M (list jsstring) :=
  mapiM (fun idx _ => t <- Date_now ;; ret (chunk_id t idx)) chunks.

(** [chunks] is [None] when the argument is [null] or [undefined]. *)
Definition storeMemories (chunks : option (list Chunk)) : M unit :=
  try_catch
    (initializeChroma ;;;
     match chunks with
     | None | Some [] => ret tt
     | Some chunks =>
         embeddings <-
           mapM (fun chunk => generateEmbedding (narrative chunk)) chunks ;;
         ids <- generate_ids chunks ;;
         let documents := map narrative chunks in
         let metadatas := map metadata chunks in
         collection_add ids embeddings documents metadatas
     end)
    (fun error => throw error).

Definition getAllMemories : M (list StoredMemory) :=
  try_catch
    (initializeChroma ;;;
     count <- collection_count ;;
     if count =? 0 then ret []
     else
       results <- collection_get (Some count) ;;
       if 0 <? length (g_documents results)
       then ret (mapi (fun idx doc =>
                         {| sm_id := nth_error (g_ids results) idx;
                            sm_narrative := doc;
                            sm_metadata := nth idx (g_metadatas results) [] |})
                   (g_documents results))
       else ret [])
    (fun error => ret []).

Definition clearAllMemories : M nat :=
  try_catch
    (initializeChroma ;;;
     count <- collection_count ;;
     if count =? 0 then ret 0
     else
       results <- collection_get None ;;
       if 0 <? length (g_ids results)
       then collection_delete (g_ids results) ;;; ret count
       else ret 0)
    (fun error => throw error).

End Program.

(** *** The console application *)

Definition CACHE_LIMIT : nat := 7.

Section Console.

Variable h : Host.

(** The first part of the [try] block of [processSummaries]: the contexts
    to process are the rolling summary, when there is one, and a summary of
    the cache when it holds more than the seeded turn. *)
Definition contextsToProcess : M (list jsstring) :=
  w <- get_world ;;
  let contexts :=
    if truthy (currentSummary w) then [currentSummary w] else [] in
  if 1 <? length (conversationCache w) then
    residualSummary <- summarizeConversation h (conversationCache w) ;;
    ret (contexts ++ [residualSummary])
  else ret contexts.

Definition processSummaries : M unit :=
  w <- get_world ;;
  if negb (truthy (currentSummary w)) && (length (conversationCache w) =? 0)
  then ret tt
  else
    try_catch
      (contexts <- contextsToProcess ;;
       if length contexts =? 0 then ret tt
       else
         chunks <- processConversations h (Some contexts) ;;
         if 0 <? length chunks then
           storeMemories h (Some chunks) ;;;
           update (set_currentSummary []) ;;;
           update (set_conversationCache [])
         else ret tt)
      (fun error => ret tt).

Definition reformulation_system : jsstring :=
  lit "You are a search query optimizer. Convert user messages into effective search queries for finding relevant memories. Output only the query.".

Definition reformulation_prompt (contextStr input : jsstring) : jsstring :=
  join nl [
    lit "Given this user input and recent conversation context, generate a concise search query to find relevant memories.";
    [];
    lit "Recent context:";
    (if truthy contextStr then contextStr else lit "No recent context");
    [];
    lit "User input: " ++ dquote ++ input ++ dquote;
    [];
    lit "Generate a search query that captures:";
    lit "- What the user is asking about";
    lit "- Key entities, topics, or concepts";
    lit "- Implicit references from context";
    [];
    lit "Output ONLY the search query, nothing else. Keep it under 20 words."
  ].

Definition reformulation_request (input : jsstring)
  (recentContext : list Message) : GenRequest :=
  let contextStr :=
    join nl
      (map (fun msg => role_name (role msg) ++ lit ": " ++ content msg)
         (slice_last 4 recentContext)) in
  {| model := gpt_4o_mini;
     messages :=
       [ {| role := system; content := reformulation_system |};
         {| role := user;
            content := reformulation_prompt contextStr input |} ];
     max_tokens := 100;
     temperature := 0.3 |}.

Definition reformulateQuery (input : jsstring) (recentContext : list Message)
  : M jsstring :=
  try_catch
    (content <-
       chat_completions_create h (reformulation_request input recentContext) ;;
     let searchQuery := trim content in
     ret searchQuery)
    (fun error => ret input).

Definition chat_request (relevantMemories : list SearchResult)
  (conversationCache : list Message) (input : jsstring) : GenRequest :=
  let memories :=
    if 0 <? length relevantMemories then
      let memoryContext :=
        join (lit " | ") (map sr_narrative relevantMemories) in
      [ {| role := system;
           content :=
             lit "Relevant memories from past conversations: "
             ++ memoryContext |} ]
    else [] in
  {| model := gpt_4o;
     messages :=
       [ {| role := system;
            content := lit "You are a helpful AI assistant. Keep your responses concise and friendly." |} ]
       ++ memories
       ++ conversationCache
       ++ [ {| role := user; content := input |} ];
     max_tokens := 1000;
     temperature := 0.7 |}.

(** The rolling summary after [newSummary] has been merged into it. *)
Definition merge_summary (currentSummary newSummary : jsstring) : jsstring :=
  if truthy currentSummary
  then currentSummary ++ nl ++ nl ++ newSummary
  else newSummary.

(** The turn that seeds the cache after a summarization. *)
Definition seeded_turn (currentSummary : jsstring) : Message :=
  {| role := user;
     content := lit "Previous conversation context: " ++ currentSummary |}.

Definition handleChat (input : jsstring) : M unit :=
  try_catch
    (w <- get_world ;;
     searchQuery <- reformulateQuery input (conversationCache w) ;;
     relevantMemories <- searchMemories h searchQuery 3 ;;
     w <- get_world ;;
     reply <-
       chat_completions_create h
         (chat_request relevantMemories (conversationCache w) input) ;;
     update (fun w =>
               set_conversationCache
                 (conversationCache w
                  ++ [ {| role := user; content := input |};
                       {| role := assistant; content := reply |} ]) w) ;;;
     w <- get_world ;;
     if CACHE_LIMIT <=? length (conversationCache w) then
       newSummary <- summarizeConversation h (conversationCache w) ;;
       update (fun w =>
                 set_currentSummary
                   (merge_summary (currentSummary w) newSummary) w) ;;;
       update (set_conversationCache []) ;;;
       update (fun w =>
                 set_conversationCache
                   (conversationCache w ++ [seeded_turn (currentSummary w)])
                   w)
     else ret tt)
    (fun error => ret tt).


End Console.

(** The world of a fresh process, whose collection holds [store]. *)
Definition initial_world (store : list StoredRecord) : World :=
  {| trace := [];
     conversationCache := [];
     currentSummary := [];
     client := false;
     collection := false;
     backend := store |}.

(** ** Specification-level notions *)

(** The last code unit of the string is not white space. *)
Fixpoint ends_with_word (s : jsstring) : bool :=
  match s with
  | [] => false
  | [c] => negb (is_space c)
  | _ :: s' => ends_with_word s'
  end.

(** A string that [trim] leaves as it is: it neither starts nor ends with
    white space. *)
Definition trimmed (s : jsstring) : Prop :=
  match s with
  | [] => True
  | c :: _ => is_space c = false /\ ends_with_word s = true
  end.

(** The word count of a fragment is within the bounds of the pipeline. *)
Definition in_bounds (s : jsstring) : bool :=
  (10 <=? word_count s) && (word_count s <=? 200).

(** The words of a list, each kept at its first occurrence only. *)
Fixpoint distinct_from (seen l : list jsstring) : list jsstring :=
  match l with
  | [] => []
  | x :: l' =>
      if mem_id x seen then distinct_from seen l'
      else x :: distinct_from (x :: seen) l'
  end.

(** The first three distinct words longer than five characters of the
    lower-cased narrative. *)
Definition distinct_topics (h : Host) (narrative : jsstring)
  : list jsstring :=
  firstn 3
    (distinct_from []
       (filter (fun word => 5 <? length word)
          (split_ws (toLowerCase h narrative)))).

(** The identifiers passed to [collection.add], one list for each request,
    the latest first. *)
Fixpoint added_ids (calls : list Call) : list (list jsstring) :=
  match calls with
  | [] => []
  | CallAdd ids :: calls' => ids :: added_ids calls'
  | _ :: calls' => added_ids calls'
  end.

(** The requests to the Generation Service in a trace. *)
Fixpoint generation_calls (calls : list Call) : list GenRequest :=
  match calls with
  | [] => []
  | CallComplete req :: calls' => req :: generation_calls calls'
  | _ :: calls' => generation_calls calls'
  end.

(** The module variables [client] and [collection] are both set. *)
Definition connected (w : World) : Prop :=
  client w = true /\ collection w = true.

(** The part of the state owned by the console application. *)
Definition session (w : World) : list Message * jsstring :=
  (conversationCache w, currentSummary w).

(** A computation that leaves the cache and the rolling summary alone. *)
Definition frames {A} (m : M A) : Prop :=
  forall w, session (snd (m w)) = session w.


(** ** Concrete hosts *)

Definition api_error : JsError :=
  {| message := lit "Connection error."; status := None |}.

Definition rate_limited : JsError :=
  {| message := lit "Rate limit exceeded"; status := Some 429%N |}.

Definition sample_facts : jsstring :=
  lit "User is Brazilian, speaks Portuguese and recently moved to Tokyo for a new job. | Likes food. | The user enjoys running and running shoes because running keeps the user healthy.".

(** A Generation Service that answers by the kind of request: a query for
    a reformulation, a summary for a summarization, [sample_facts] for an
    extraction and a greeting for a chat turn. *)
Definition sample_complete (t : nat) (req : GenRequest) : result jsstring :=
  if jsstring_eqb (model req) gpt_4o_mini then Ok (lit " tokyo food ")
  else if PrimFloat.eqb (temperature req) 0.12 then
    Ok (lit "The user greeted the assistant.")
  else if (max_tokens req =? 2500)%N then Ok sample_facts
  else Ok (lit "Hello! How can I help?").


(** A backend that ranks the stored records in their stored order. *)
Definition stored_order (t : nat) (store : list StoredRecord) (e : embedding)
  (n : Z) : QueryResult :=
  let rs := firstn (Z.to_nat n) store in
  {| q_documents := [map rec_document rs];
     q_metadatas := [map rec_metadata rs];
     q_distances := [map (fun _ => 0%float) rs] |}.

Definition sample_host : Host :=
  {| complete := sample_complete;
     embed := fun _ _ => Ok [0.25%float; 0.5%float];
     clock := fun t => (1700000000000 + N.of_nat t)%N;
     backend_fault := fun _ => None;
     rank := stored_order;
     toISOString := show_N;
     toLowerCase := ascii_lower |}.




(** Every service is down. *)
Definition offline_host : Host :=
  {| complete := fun _ _ => Err api_error;
     embed := fun _ _ => Err api_error;
     clock := clock sample_host;
     backend_fault := fun _ => Some api_error;
     rank := rank sample_host;
     toISOString := toISOString sample_host;
     toLowerCase := toLowerCase sample_host |}.

(** The Embedding Service is down. *)
Definition no_embedding_host : Host :=
  {| complete := sample_complete;
     embed := fun _ _ => Err api_error;
     clock := clock sample_host;
     backend_fault := fun _ => None;
     rank := rank sample_host;
     toISOString := toISOString sample_host;
     toLowerCase := toLowerCase sample_host |}.

Definition sample_chunk : Chunk :=
  {| narrative := lit "User recently moved to Tokyo and misses Brazilian food from home.";
     metadata := [("source"%string, VStr (lit "test_conversation"))] |}.

Definition sample_store : list StoredRecord :=
  [ {| rec_id := lit "chunk_1699999999000_0";
       rec_embedding := [0.25%float; 0.5%float];
       rec_document := narrative sample_chunk;
       rec_metadata := metadata sample_chunk |};
    {| rec_id := lit "chunk_1699999999000_1";
       rec_embedding := [0.5%float; 0.25%float];
       rec_document := lit "User is training for a marathon in June and runs 20 miles a week.";
       rec_metadata := metadata sample_chunk |} ].


(** A session whose cache has been summarized once. *)
Definition sample_world : World :=
  let summary :=
    lit "User is Brazilian, recently moved to Tokyo, misses home food." in
  set_currentSummary summary
    (set_conversationCache
       [ {| role := user;
            content := lit "Previous conversation context: " ++ summary |} ]
       (initial_world [])).

Definition sample_summaries : list jsstring :=
  [ lit "User is Brazilian, recently moved to Tokyo, misses home food.";
    lit "User likes running and runs every week." ].

(** The value of a run, or [d] when it threw. *)
Definition value_or {A} (d : A) (r : result A * World) : A :=
  match fst r with
  | Ok a => a
  | Err _ => d
  end.

(** The chunks extracted from [sample_summaries] in a fresh process. *)
Definition sample_chunks : list Chunk :=
  value_or []
    (processConversations sample_host (Some sample_summaries)
       (initial_world [])).

(** ** The rest of the console application, the test mocks and the
    Discord handler *)

(** A computation that leaves a component [proj] of the world alone. *)
Definition keeps {X A} (proj : World -> X) (m : M A) : Prop :=
  forall w, proj (snd (m w)) = proj w.

(** A component of the world that recording a request does not change. *)
Definition untraced {X} (proj : World -> X) : Prop :=
  forall c w, proj (record_call c w) = proj w.

(** The module variables of vectorDB.js. *)
Definition store_handle (w : World) : bool * bool := (client w, collection w).

(** [client] is set and [collection] is [null]: the state left by a failed
    [getOrCreateCollection]. *)
Definition broken (w : World) : Prop :=
  client w = true /\ collection w = false.

(** The memory that [getAllMemories] builds from a record. *)
Definition memory_of_record (r : StoredRecord) : StoredMemory :=
  {| sm_id := Some (rec_id r);
     sm_narrative := rec_document r;
     sm_metadata := rec_metadata r |}.

(** The number of occurrences of the code unit [d] in a string. *)
Definition occurrences (d : N) (s : jsstring) : nat :=
  length (filter (N.eqb d) s).

(** *** The command loop of the console application *)

(** What the loop does after a line: read on, or [process.exit(0)]. *)
Inductive Next := KeepGoing | ProcessExit.

Section CommandLoop.

Variable h : Host.

Definition showMemories : M unit :=
  memories <- getAllMemories h ;;
  ret tt.

(** [confirmation] is the line that answers the question asked by the
    [clear] command; the other commands do not read it.  An error thrown
    while clearing is reported by the [unhandledRejection] handler and the
    loop goes on. *)
Definition processInput (input confirmation : jsstring) : M Next :=
  let trimmedInput := trim input in
  if negb (truthy trimmedInput) then ret KeepGoing
  else
    let command := toLowerCase h trimmedInput in
    if jsstring_eqb command (lit "exit") || jsstring_eqb command (lit "quit")
    then ret ProcessExit
    else if jsstring_eqb command (lit "help") then ret KeepGoing
    else if jsstring_eqb command (lit "cache") then ret KeepGoing
    else if jsstring_eqb command (lit "summaries") then ret KeepGoing
    else if jsstring_eqb command (lit "memories") then
      showMemories ;;; ret KeepGoing
    else if jsstring_eqb command (lit "process") then
      processSummaries h ;;; ret KeepGoing
    else if jsstring_eqb command (lit "clear") then
      if jsstring_eqb (toLowerCase h (trim confirmation)) (lit "confirm")
      then
        try_catch
          (deleted <- clearAllMemories h ;; ret KeepGoing)
          (fun error => ret KeepGoing)
      else ret KeepGoing
    else handleChat h trimmedInput ;;; ret KeepGoing.

End CommandLoop.

(** *** test.js: the mocks of the test script *)

(** A char code as a number. *)
Definition float_of_N (n : N) : float :=
  PrimFloat.of_uint63 (Uint63.of_Z (Z.of_N n)).

(** [embedding[i] += x]; the index is always within the array. *)
Fixpoint add_at (i : nat) (x : float) (embedding : list float) : list float :=
  match embedding, i with
  | [], _ => []
  | y :: rest, 0 => (y + x)%float :: rest
  | y :: rest, S i' => y :: add_at i' x rest
  end.

(** The [for] loop of [generateMockEmbedding], from index [i]. *)
Fixpoint accumulate_codes (i : nat) (text : jsstring) (embedding : list float)
  : list float :=
  match text with
  | [] => embedding
  | charCode :: text' =>
      accumulate_codes (S i) text'
        (add_at (i mod 1536) (float_of_N charCode / 1000)%float embedding)
  end.

Definition generateMockEmbedding (text : jsstring) : list float :=
  let embedding := accumulate_codes 0 text (repeat 0%float 1536) in
  let magnitude :=
    PrimFloat.sqrt
      (fold_left (fun sum val => (sum + val * val)%float) embedding 0%float) in
  map (fun val => (val / magnitude)%float) embedding.

(** The code units of the class [[.!?]]. *)
Definition is_terminator (c : N) : bool :=
  ((c =? 46) || (c =? 33) || (c =? 63))%N.

(** Where the scan of [/[^.!?]+[.!?]+/g] stands: before a match, in the
    run of other code units that starts one, or in the run of terminators
    that ends it. *)
Inductive Phase := Outside | Body | Tail.

(** [summary.match(/[^.!?]+[.!?]+/g)]: the matches, none for [null]. *)
Fixpoint match_sentences (phase : Phase) (cur s : jsstring) : list jsstring :=
  match s with
  | [] =>
      match phase with
      | Tail => [cur]
      | _ => []
      end
  | c :: s' =>
      if is_terminator c then
        match phase with
        | Outside => match_sentences Outside [] s'
        | _ => match_sentences Tail (cur ++ [c]) s'
        end
      else
        match phase with
        | Tail => cur :: match_sentences Body [c] s'
        | _ => match_sentences Body (cur ++ [c]) s'
        end
  end.

(** The narratives made by the [forEach] loop of
    [mockProcessConversations]; [currentChunk] holds the sentences not yet
    joined. *)
Fixpoint group_sentences (currentChunk sentences : list jsstring)
  : list jsstring :=
  match sentences with
  | [] => []
  | sentence :: rest =>
      let currentChunk := currentChunk ++ [trim sentence] in
      if (2 <=? length currentChunk) || (length rest =? 0)
      then join (lit " ") currentChunk :: group_sentences [] rest
      else group_sentences currentChunk rest
  end.

(** A string without any terminator. *)
Definition no_terminator (s : jsstring) : Prop :=
  Forall (fun c => is_terminator c = false) s.

Section Mocks.

Variable h : Host.

(** A chunk of the mock chunker, created now. *)
Definition mock_chunk (narrative : jsstring) : M Chunk :=
  t <- Date_now h ;;
  ret {| narrative := narrative;
         metadata :=
           [ ("timestamp"%string, VStr (toISOString h t));
             ("source"%string, VStr (lit "test_conversation"));
             ("chunk_length"%string, VNum (length narrative)) ] |}.

Definition mockProcessConversations (summary : jsstring) : M (list Chunk) :=
  let sentences :=
    match match_sentences Outside [] summary with
    | [] => [summary]
    | matches => matches
    end in
  if length sentences <=? 2 then
    chunk <- mock_chunk summary ;;
    ret [chunk]
  else mapM mock_chunk (group_sentences [] sentences).

End Mocks.

(** ** The Discord handler

    [handleAIChat] runs in another process than the console application,
    with a cache of its own.  Its world holds the module variables
    [openai] and [conversation_cache] and the trace of what the handler
    asked of the outside: completions, clock readings, messages sent to the
    channel and the typing indicator.  Calls of [logger] are left out. *)

Module Discord.

(** The argument of [ai.chat.completions.create]; the request for a reply
    gives no temperature. *)
Record BotRequest := {
  b_model : jsstring;
  b_messages : list Message;
  b_max_tokens : N;
  b_temperature : option float
}.

Inductive BotCall :=
| BotComplete (req : BotRequest)
| BotClock
| BotSend (content : jsstring)
| BotStartTyping
| BotStopTyping.

Record BotWorld := {
  bot_trace : list BotCall;          (* requests so far, the latest first *)
  openai : bool;                     (* [openai] is set *)
  conversation_cache : list Message
}.

Abbreviation time w := (length (bot_trace w)).

(** The configuration, the answers of the outside and the built-in that
    prints the date.  [apiKey] is [config.openai.apiKey], empty when it is
    not configured. *)
Record BotHost := {
  apiKey : jsstring;
  bot_complete : nat -> BotRequest -> result jsstring;
  send_fault : nat -> option JsError;
  bot_clock : nat -> N;
  toLocaleString : N -> jsstring
}.

(** What the handler reads of the Discord message. *)
Record DiscordMessage := {
  m_content : jsstring;              (* [message.content] *)
  m_username : jsstring              (* [message.author.username] *)
}.

Definition B (A : Type) : Type := BotWorld -> result A * BotWorld.

Definition bret {A} (a : A) : B A := fun w => (Ok a, w).

Definition bbind {A C} (m : B A) (k : A -> B C) : B C :=
  fun w =>
    match m w with
    | (Ok a, w') => k a w'
    | (Err e, w') => (Err e, w')
    end.

Definition btry_catch {A} (m : B A) (handler : JsError -> B A) : B A :=
  fun w =>
    match m w with
    | (Ok a, w') => (Ok a, w')
    | (Err e, w') => handler e w'
    end.

Declare Scope bot_scope.
Delimit Scope bot_scope with bot.
Notation "x <- m ;; k" := (bbind m (fun x => k))
  (at level 61, m at next level, right associativity) : bot_scope.
Notation "m ;;; k" := (bbind m (fun _ => k))
  (at level 61, right associativity) : bot_scope.
Local Open Scope bot_scope.

Definition bot_record (c : BotCall) (w : BotWorld) : BotWorld :=
  {| bot_trace := c :: bot_trace w;
     openai := openai w;
     conversation_cache := conversation_cache w |}.

Definition set_openai (b : bool) (w : BotWorld) : BotWorld :=
  {| bot_trace := bot_trace w;
     openai := b;
     conversation_cache := conversation_cache w |}.

Definition set_conversation_cache (c : list Message) (w : BotWorld)
  : BotWorld :=
  {| bot_trace := bot_trace w;
     openai := openai w;
     conversation_cache := c |}.

Definition bot_world : B BotWorld := fun w => (Ok w, w).

Definition bot_update (f : BotWorld -> BotWorld) : B unit :=
  fun w => (Ok tt, f w).

(** [for (let x of l) { f x }]. *)
Fixpoint forEach {A} (f : A -> B unit) (l : list A) : B unit :=
  match l with
  | [] => bret tt
  | x :: l' => f x ;;; forEach f l'
  end.

(** *** The regular expressions *)

Definition is_digit (c : N) : bool := ((48 <=? c) && (c <=? 57))%N.

Fixpoint count_digits (s : jsstring) : nat :=
  match s with
  | c :: s' => if is_digit c then S (count_digits s') else 0
  | [] => 0
  end.

(** The length of the match of [/<@!?\d+>/] at the start of [s]. *)
Definition mention_length (s : jsstring) : option nat :=
  match s with
  | lt :: at_ :: rest =>
      if ((lt =? 60) && (at_ =? 64))%N then
        let bang :=
          match rest with
          | c :: _ => if (c =? 33)%N then 1 else 0
          | [] => 0
          end in
        let digits := count_digits (skipn bang rest) in
        match nth_error (skipn bang rest) digits with
        | Some gt =>
            if (0 <? digits) && (gt =? 62)%N
            then Some (2 + bang + digits + 1)
            else None
        | None => None
        end
      else None
  | _ => None
  end.

(** [s.replace(/<@!?\d+>/g, '')]; [skip] code units of a match are still
    to be dropped. *)
Fixpoint strip_mentions_from (skip : nat) (s : jsstring) : jsstring :=
  match s with
  | [] => []
  | c :: s' =>
      match skip with
      | S k => strip_mentions_from k s'
      | 0 =>
          match mention_length s with
          | Some n => strip_mentions_from (n - 1) s'
          | None => c :: strip_mentions_from 0 s'
          end
      end
  end.

Definition strip_mentions (s : jsstring) : jsstring :=
  strip_mentions_from 0 s.

(** [s.split(/\r?\n/g)]. *)
Fixpoint split_lines_from (cur s : jsstring) : list jsstring :=
  match s with
  | [] => [cur]
  | c :: s' =>
      if (c =? 10)%N then cur :: split_lines_from [] s'
      else if (c =? 13)%N then
        match s' with
        | d :: s'' =>
            if (d =? 10)%N then cur :: split_lines_from [] s''
            else split_lines_from (cur ++ [c]) s'
        | [] => split_lines_from (cur ++ [c]) s'
        end
      else split_lines_from (cur ++ [c]) s'
  end.

Definition split_lines (s : jsstring) : list jsstring :=
  split_lines_from [] s.

Fixpoint strip_prefix (p s : jsstring) : option jsstring :=
  match p, s with
  | [], _ => Some s
  | a :: p', b :: s' => if (a =? b)%N then strip_prefix p' s' else None
  | _ :: _, [] => None
  end.

(** What follows the first occurrence of [marker] in [s]. *)
Fixpoint after_marker (marker s : jsstring) : option jsstring :=
  match strip_prefix marker s with
  | Some rest => Some rest
  | None =>
      match s with
      | [] => None
      | _ :: s' => after_marker marker s'
      end
  end.

(** The code units that [.] does not match. *)
Definition is_line_terminator (c : N) : bool :=
  ((c =? 10) || (c =? 13) || (c =? 8232) || (c =? 8233))%N.

Fixpoint takeWhile (p : N -> bool) (s : jsstring) : jsstring :=
  match s with
  | [] => []
  | c :: s' => if p c then c :: takeWhile p s' else []
  end.

(** [i.match(/(?<=Nattochan:).*/g)]: [None] for [null], else the first
    match. *)
Definition nattochan_speech (i : jsstring) : option jsstring :=
  match after_marker (lit "Nattochan:") i with
  | Some rest => Some (takeWhile (fun c => negb (is_line_terminator c)) rest)
  | None => None
  end.

(** *** The handler *)

Definition conversation_cut_length : nat := 7.

Definition not_configured : jsstring :=
  lit "AI chat is not configured. Please set up your OpenAI API key.".

Definition say_something : jsstring := lit "say something!!!!!".

(** The message sent for an error, chosen by its status. *)
Definition error_notice (error : JsError) : jsstring :=
  match status error with
  | Some s =>
      if (s =? 401)%N then
        lit "AI service authentication failed. Please check API key configuration."
      else if (s =? 429)%N then
        lit "Too many requests. Please try again later."
      else lit "Sorry, I encountered an error processing your message."
  | None => lit "Sorry, I encountered an error processing your message."
  end.

Definition persona (current_game : jsstring) : jsstring :=
  lit "Pretend that you are Nattochan, a female Japanese anime style Discord chatbot which its sole purpose is to be useless and rage-baiting.Nattochan loves to tease everyone she talks to.Nattochan hates Knilios for no reason.Nattochan's creator is Knilios.Nattochan likes to play games.Now she's playing "
  ++ current_game
  ++ lit ".**Only Generate Nattochan's speech**.Don't write a lot of text since it's discord.".

Definition reply_request (current_game date username input : jsstring)
  (cache : list Message) : BotRequest :=
  let messages := [ {| role := system; content := persona current_game |} ] in
  let new_message :=
    (messages ++ cache)
    ++ [ {| role := user;
            content :=
              lit "(" ++ date ++ lit ")" ++ username ++ lit ":" ++ input |} ] in
  {| b_model := lit "gpt-4o";
     b_messages := new_message;
     b_max_tokens := 1002;
     b_temperature := None |}.

Definition brief_request (cache : list Message) : BotRequest :=
  let conversation_input :=
    fold_left (fun text i => text ++ content i ++ nl) cache []
    ++ nl ++ lit "summary:" in
  {| b_model := lit "gpt-4o";
     b_messages :=
       [ {| role := system;
            content := lit "Summarize all the context in this following Discord chat for Nattochan to read, given that Nattochan is a anime style female chatbot." |};
         {| role := user; content := conversation_input |} ];
     b_temperature := Some 0.12%float;
     b_max_tokens := 1000 |}.

(** The cache after a summarization. *)
Definition briefed_cache (briefed : jsstring) : list Message :=
  [ {| role := user;
       content := lit "previous conversation context:" ++ briefed |} ].

Section Handler.

Variable h : BotHost.

(** [ai.chat.completions.create(req)], then
    [response.choices[0].message.content]. *)
Definition create (req : BotRequest) : B jsstring :=
  fun w => (bot_complete h (time w) req, bot_record (BotComplete req) w).

(** [new Date()]. *)
Definition new_Date : B N :=
  fun w => (Ok (bot_clock h (time w)), bot_record BotClock w).

(** [message.channel.send(content)]. *)
Definition send (content : jsstring) : B unit :=
  fun w =>
    (match send_fault h (time w) with
     | Some e => Err e
     | None => Ok tt
     end, bot_record (BotSend content) w).

Definition startTyping : B unit := bot_update (bot_record BotStartTyping).

Definition stopTyping : B unit := bot_update (bot_record BotStopTyping).

(** Returns whether a client is returned rather than [null]. *)
Definition initializeOpenAI : B bool :=
  if negb (truthy (apiKey h)) then bret false
  else
    w <- bot_world ;;
    (if negb (openai w) then bot_update (set_openai true) else bret tt) ;;;
    bret true.

(** The body of the loop over the lines of the reply. *)
Definition send_line (i : jsstring) : B unit :=
  if truthy i then
    match nattochan_speech i with
    | Some speech =>
        let toSend := trim speech in
        if truthy toSend then send (trim speech) else bret tt
    | None => send i
    end
  else bret tt.

(** [client.currentActivity || 'games']. *)
Definition current_game (currentActivity : option jsstring) : jsstring :=
  match currentActivity with
  | Some game => if truthy game then game else lit "games"
  | None => lit "games"
  end.

(** The rest of the [try] block once the typing indicator is stopped: the
    lines of the reply are sent, the turn is pushed on the cache, and a
    cache of [conversation_cut_length] messages or more is replaced by its
    summary. *)
Definition deliver (message : DiscordMessage) (input reply : jsstring)
  : B unit :=
  let splited_reply := split_lines reply in
  forEach send_line splited_reply ;;;
  bot_update (fun w =>
                set_conversation_cache
                  (conversation_cache w
                   ++ [ {| role := user;
                           content :=
                             m_username message ++ lit ":" ++ input |};
                        {| role := assistant; content := reply |} ]) w) ;;;
  w <- bot_world ;;
  if conversation_cut_length <=? length (conversation_cache w) then
    briefed <- create (brief_request (conversation_cache w)) ;;
    bot_update (set_conversation_cache (briefed_cache briefed))
  else bret tt.

(** The [try] block, once the input is known not to be empty. *)
Definition reply_to (message : DiscordMessage)
  (currentActivity : option jsstring) (input : jsstring) : B unit :=
  startTyping ;;;
  date <- new_Date ;;
  w <- bot_world ;;
  reply <-
    create (reply_request (current_game currentActivity)
              (toLocaleString h date)
              (m_username message) input (conversation_cache w)) ;;
  stopTyping ;;;
  deliver message input reply.

(** The [catch] block. *)
Definition report (error : JsError) : B unit :=
  stopTyping ;;;
  send (error_notice error).

(** [currentActivity] is [client.currentActivity], [None] when undefined.
    The two early [return message.channel.send(...)] hand the promise of
    [send] back without awaiting it, so a failure of these sends is not
    caught by the [catch] block; computing the input throws nothing. *)
Definition handleAIChat (message : DiscordMessage)
  (currentActivity : option jsstring) : B unit :=
  ai <- initializeOpenAI ;;
  if negb ai then send not_configured
  else
    let input := trim (strip_mentions (m_content message)) in
    if negb (truthy input) then send say_something
    else btry_catch (reply_to message currentActivity input) report.

End Handler.

(** The world once [initializeOpenAI] has returned a client. *)
Definition ready (w : BotWorld) : BotWorld :=
  if openai w then w else set_openai true w.

(** What awaiting a [send] issued at time [t] gives. *)
Definition send_outcome (h : BotHost) (t : nat) : result unit :=
  match send_fault h t with
  | Some e => Err e
  | None => Ok tt
  end.

(** A call that is not the sending of an empty message. *)
Definition not_empty_send (c : BotCall) : Prop :=
  forall content, c = BotSend content -> content <> [].

(** The messages sent to the channel in a trace, the latest first. *)
Fixpoint sent (calls : list BotCall) : list jsstring :=
  match calls with
  | [] => []
  | BotSend content :: calls' => content :: sent calls'
  | _ :: calls' => sent calls'
  end.

(** The requests for a completion in a trace. *)
Fixpoint completions (calls : list BotCall) : list BotRequest :=
  match calls with
  | [] => []
  | BotComplete req :: calls' => req :: completions calls'
  | _ :: calls' => completions calls'
  end.

(** A computation that only adds calls to the trace, and such that [P]
    holds of the calls it adds. *)
Definition emits {A} (P : list BotCall -> Prop) (m : B A) : Prop :=
  forall w, exists calls,
    bot_trace (snd (m w)) = calls ++ bot_trace w /\ P calls.

(** The cache is left as it was, whatever the outcome. *)
Definition cache_kept {A} (m : B A) : Prop :=
  forall w, conversation_cache (snd (m w)) = conversation_cache w.

(** A host whose completions answer every request for a summary. *)
Definition brief_answers (h : BotHost) : Prop :=
  forall t cache, exists s, bot_complete h t (brief_request cache) = Ok s.

Definition bot_sample_host : BotHost :=
  {| apiKey := lit "sk-test";
     bot_complete :=
       fun _ req =>
         match b_temperature req with
         | Some _ => Ok (lit "They greeted each other.")
         | None =>
             Ok (lit "Nattochan: Hmph, you again?" ++ nl ++ nl
                 ++ lit "*plays games*")
         end;
     send_fault := fun _ => None;
     bot_clock := fun t => (1700000000000 + N.of_nat t)%N;
     toLocaleString := show_N |}.

Definition bot_offline_host : BotHost :=
  {| apiKey := lit "sk-test";
     bot_complete := fun _ _ => Err rate_limited;
     send_fault := fun _ => None;
     bot_clock := bot_clock bot_sample_host;
     toLocaleString := show_N |}.

Definition bot_initial_world : BotWorld :=
  {| bot_trace := []; openai := false; conversation_cache := [] |}.

Definition sample_message : DiscordMessage :=
  {| m_content := lit "<@!123456789> hello there";
     m_username := lit "knilios" |}.

End Discord.

(** * Properties *)

(** ** The built-ins on small inputs *)

Example trim_both_ends :
  trim (lit "  moved to Tokyo " ++ nl) = lit "moved to Tokyo".
Proof. reflexivity. Qed.

Example split_bar :
  split_char 124 (lit "a|b||c|") = [lit "a"; lit "b"; []; lit "c"; []].
Proof. reflexivity. Qed.

Example split_white_space :
  split_ws (lit "two  words" ++ nl ++ lit "more") =
  [lit "two"; lit "words"; lit "more"]
  /\ split_ws (lit " a ") = [[]; lit "a"; []]
  /\ split_ws [] = [[]].
Proof. repeat split; reflexivity. Qed.

Example join_comma : join (lit ", ") [lit "a"; lit "b"; lit "c"] = lit "a, b, c".
Proof. reflexivity. Qed.

Example slice_last_four :
  slice_last 4 [1; 2; 3; 4; 5; 6] = [3; 4; 5; 6]
  /\ slice_last 4 [1; 2] = [1; 2].
Proof. split; reflexivity. Qed.

Example chunk_id_format :
  chunk_id 1700000000000 12 = lit "chunk_1700000000000_12".
Proof. reflexivity. Qed.

Example word_count_sample :
  word_count (lit "User recently moved to Tokyo") = 5.
Proof. reflexivity. Qed.

(** ** Running the monad *)

Lemma rethrow A (m : M A) w :
  try_catch m (fun error => throw error) w = m w.
Proof. unfold try_catch, throw. destruct (m w) as [[a|e] w']; reflexivity. Qed.

Lemma mapM_cons A B (f : A -> M B) x l w :
  mapM f (x :: l) w =
  match f x w with
  | (Ok y, w1) =>
      match mapM f l w1 with
      | (Ok ys, w2) => (Ok (y :: ys), w2)
      | (Err e, w2) => (Err e, w2)
      end
  | (Err e, w1) => (Err e, w1)
  end.
Proof.
  simpl. unfold bind. destruct (f x w) as [[y|e] w1]; [|reflexivity].
  destruct (mapM f l w1) as [[ys|e] w2]; reflexivity.
Qed.

Lemma mapiM_from_cons A B (f : nat -> A -> M B) idx x l w :
  mapiM_from f idx (x :: l) w =
  match f idx x w with
  | (Ok y, w1) =>
      match mapiM_from f (S idx) l w1 with
      | (Ok ys, w2) => (Ok (y :: ys), w2)
      | (Err e, w2) => (Err e, w2)
      end
  | (Err e, w1) => (Err e, w1)
  end.
Proof.
  simpl. unfold bind. destruct (f idx x w) as [[y|e] w1]; [|reflexivity].
  destruct (mapiM_from f (S idx) l w1) as [[ys|e] w2]; reflexivity.
Qed.

(** ** C9: nothing to process *)

(** C9. [processConversations] applied to an empty list of summaries, or to
    no list at all, returns the empty list and leaves the world as it was:
    no request is sent to the Generation Service. *)
Theorem processConversations_empty :
  forall (h : Host) (w : World),
    processConversations h None w = (Ok [], w)
    /\ processConversations h (Some []) w = (Ok [], w)
    /\ generation_calls (trace (snd (processConversations h (Some []) w)))
       = generation_calls (trace w).
Proof.
  intros h w. repeat split; reflexivity.
Qed.

(** ** Words and white space *)

Section Words.

Lemma dropWhile_suffix p s :
  exists pre, s = pre ++ dropWhile p s /\ forallb p pre = true.
Proof.
  induction s as [|c s IH]; simpl.
  - exists []. split; reflexivity.
  - destruct (p c) eqn:Hc.
    + destruct IH as [pre [E F]]. exists (c :: pre). simpl.
      rewrite Hc, F. split; [f_equal; exact E | reflexivity].
    + exists []. split; reflexivity.
Qed.

Lemma dropWhile_head p s c r : dropWhile p s = c :: r -> p c = false.
Proof.
  induction s as [|d s IH]; simpl; [discriminate|].
  destruct (p d) eqn:Hd; [exact IH|].
  intros E. injection E as -> _. exact Hd.
Qed.

Lemma ends_with_word_snoc s c :
  ends_with_word (s ++ [c]) = negb (is_space c).
Proof.
  induction s as [|d s IH]; simpl; [reflexivity|].
  rewrite IH. destruct (s ++ [c]) eqn:E; [|reflexivity].
  destruct s; discriminate.
Qed.

Lemma trim_trimmed s : trimmed (trim s).
Proof.
  unfold trim.
  destruct (dropWhile_suffix is_space (rev (dropWhile is_space s)))
    as [pre [E _]].
  destruct (dropWhile is_space (rev (dropWhile is_space s)))
    as [|c v] eqn:Ev; [exact I|].
  pose proof (dropWhile_head _ _ _ _ Ev) as Hc.
  assert (Hu : dropWhile is_space s = (rev v ++ [c]) ++ rev pre).
  { rewrite <- (rev_involutive (dropWhile is_space s)), E, rev_app_distr.
    reflexivity. }
  simpl rev. unfold trimmed.
  destruct (rev v ++ [c]) as [|d r] eqn:Er.
  - destruct (rev v); discriminate.
  - split.
    + simpl in Hu. exact (dropWhile_head _ _ _ _ Hu).
    + rewrite <- Er, ends_with_word_snoc, Hc. reflexivity.
Qed.

(** The pieces of [split(/\s+/)] against the words of a string that ends
    with a word. *)
Lemma split_ws_from_words s :
  ends_with_word s = true ->
  forall cur,
    length (split_ws_from cur false s) = S (count_words false s)
    /\ length (split_ws_from cur true s) = count_words true s.
Proof.
  induction s as [|c s IH]; [discriminate|].
  intros He cur.
  destruct s as [|d s'].
  - simpl in *. destruct (is_space c); [discriminate|]. split; reflexivity.
  - assert (He' : ends_with_word (d :: s') = true) by exact He.
    specialize (IH He').
    change (split_ws_from cur false (c :: d :: s')) with
      (if is_space c then cur :: split_ws_from [] true (d :: s')
       else split_ws_from (cur ++ [c]) false (d :: s')).
    change (split_ws_from cur true (c :: d :: s')) with
      (if is_space c then split_ws_from [] true (d :: s')
       else split_ws_from (cur ++ [c]) false (d :: s')).
    change (count_words false (c :: d :: s')) with
      (if is_space c then count_words true (d :: s')
       else 0 + count_words false (d :: s')).
    change (count_words true (c :: d :: s')) with
      (if is_space c then count_words true (d :: s')
       else 1 + count_words false (d :: s')).
    destruct (is_space c).
    + destruct (IH []) as [_ E2].
      split; [cbn [length]; f_equal; exact E2 | exact E2].
    + destruct (IH (cur ++ [c])) as [E1 _]. rewrite E1.
      split; reflexivity.
Qed.

(** On a trimmed, non-empty fragment the length of [split(/\s+/)] is the
    number of words. *)
Lemma wordCount_words s :
  trimmed s -> s <> [] -> wordCount s = word_count s.
Proof.
  destruct s as [|c s]; [congruence|].
  intros [Hc He] _.
  unfold wordCount, word_count, split_ws.
  change (split_ws_from [] false (c :: s)) with
    (if is_space c then [] :: split_ws_from [] true s
     else split_ws_from ([] ++ [c]) false s).
  change (count_words true (c :: s)) with
    (if is_space c then count_words true s else 1 + count_words false s).
  rewrite Hc.
  destruct s as [|d s']; [reflexivity|].
  assert (He' : ends_with_word (d :: s') = true) by exact He.
  destruct (split_ws_from_words _ He' ([] ++ [c])) as [E _].
  rewrite E. reflexivity.
Qed.

Lemma filter_filter A (f g : A -> bool) l :
  filter f (filter g l) = filter (fun x => g x && f x) l.
Proof.
  induction l as [|x l IH]; simpl; [reflexivity|].
  destruct (g x); simpl; [destruct (f x)|]; rewrite IH; reflexivity.
Qed.

(** The fragments kept by the two filters are the non-empty trimmed
    fragments whose number of words is within bounds. *)
Lemma chunkTexts_words text :
  chunkTexts text =
  filter (fun f => (0 <? length f) && in_bounds f)
    (map trim (split_char 124 text)).
Proof.
  unfold chunkTexts. rewrite filter_filter.
  apply filter_ext_in. intros f Hf.
  apply in_map_iff in Hf. destruct Hf as [g [<- _]].
  destruct (trim g) as [|c r] eqn:E; [reflexivity|].
  unfold in_bounds.
  rewrite wordCount_words; [reflexivity| |discriminate].
  rewrite <- E. apply trim_trimmed.
Qed.

Lemma chunkTexts_in_bounds text f :
  In f (chunkTexts text) -> f <> [] /\ 10 <= word_count f <= 200.
Proof.
  rewrite chunkTexts_words. intros Hf.
  apply filter_In in Hf. destruct Hf as [_ Hf].
  apply andb_true_iff in Hf. destruct Hf as [Hn Hb].
  unfold in_bounds in Hb. apply andb_true_iff in Hb. destruct Hb as [H1 H2].
  apply Nat.leb_le in H1. apply Nat.leb_le in H2.
  split; [|lia].
  intros ->. discriminate.
Qed.

End Words.

(** ** The Fact Extraction Pipeline *)

Section Extraction.

Variable h : Host.

Lemma now_record_call c w : now (record_call c w) = S (now w).
Proof. reflexivity. Qed.

(** Creating the chunks cannot fail; it reads the clock once per chunk. *)
Lemma mapM_make_chunk l :
  forall w, exists chunks w',
    mapM (make_chunk h) l w = (Ok chunks, w')
    /\ map narrative chunks = l
    /\ now w' = now w + length l
    /\ session w' = session w
    /\ Forall (fun c => exists t,
                 now w <= t < now w'
                 /\ metadata c =
                    chunk_metadata h (toISOString h (clock h t)) (narrative c))
         chunks.
Proof.
  induction l as [|x l IH]; intros w.
  - exists [], w. simpl. unfold ret.
    repeat split; auto; lia.
  - destruct (IH (record_call CallClock w)) as [cs [w' [E [Hn [Ht [Hs Hm]]]]]].
    exists ({| narrative := x;
               metadata := chunk_metadata h (toISOString h (clock h (now w))) x |}
            :: cs), w'.
    rewrite now_record_call in Ht.
    split; [|split; [|split; [|split]]].
    + rewrite mapM_cons.
      change (make_chunk h x w) with
        (Ok {| narrative := x;
               metadata :=
                 chunk_metadata h (toISOString h (clock h (now w))) x |},
         record_call CallClock w).
      cbv beta iota. rewrite E. reflexivity.
    + simpl. rewrite Hn. reflexivity.
    + simpl. lia.
    + rewrite Hs. reflexivity.
    + constructor.
      * exists (now w). split; [simpl; lia | reflexivity].
      * eapply Forall_impl; [|exact Hm].
        intros c [t [Hlt Hc]]. exists t.
        rewrite now_record_call in Hlt. split; [lia | exact Hc].
Qed.

(** What a successful extraction returns. *)
Lemma processConversations_ok summaries w chunks w' :
  processConversations h summaries w = (Ok chunks, w') ->
  (chunks = [] /\ w' = w /\ (summaries = None \/ summaries = Some []))
  \/ exists ss text,
       summaries = Some ss /\ ss <> []
       /\ complete h (now w) (extraction_request ss) = Ok text
       /\ map narrative chunks = chunkTexts (trim text)
       /\ session w' = session w
       /\ Forall (fun c => exists t,
                    now w <= t < now w'
                    /\ metadata c =
                       chunk_metadata h (toISOString h (clock h t))
                         (narrative c))
            chunks.
Proof.
  unfold processConversations. rewrite rethrow.
  destruct summaries as [[|s ss]|].
  - unfold ret. intros E. injection E as <- <-. left. auto.
  - intros E. right. exists (s :: ss).
    unfold bind, chat_completions_create in E.
    destruct (complete h (now w) (extraction_request (s :: ss)))
      as [text|e] eqn:Ec; [|discriminate].
    exists text.
    destruct (mapM_make_chunk (chunkTexts (trim text))
                (record_call (CallComplete (extraction_request (s :: ss))) w))
      as [cs [w1 [Em [Hn [Ht [Hs Hm]]]]]].
    rewrite Em in E. injection E as <- <-.
    repeat split; auto; try discriminate.
    eapply Forall_impl; [|exact Hm].
    intros c [t [Hlt Hc]]. exists t.
    rewrite now_record_call in Hlt. split; [lia | exact Hc].
  - unfold ret. intros E. injection E as <- <-. left. auto.
Qed.

(** Extraction touches neither the cache nor the rolling summary. *)
Lemma processConversations_session summaries w :
  session (snd (processConversations h summaries w)) = session w.
Proof.
  unfold processConversations. rewrite rethrow.
  destruct summaries as [[|s ss]|]; try reflexivity.
  unfold bind, chat_completions_create.
  destruct (complete h (now w) (extraction_request (s :: ss))) as [text|e];
    [|reflexivity].
  destruct (mapM_make_chunk (chunkTexts (trim text))
              (record_call (CallComplete (extraction_request (s :: ss))) w))
    as [cs [w1 [Em [_ [_ [Hs _]]]]]].
  rewrite Em. exact Hs.
Qed.

Lemma prop_topics ts n :
  prop "topics" (chunk_metadata h ts n) =
  if 0 <? length (topics_of h n)
  then Some (VStr (join (lit ", ") (topics_of h n)))
  else None.
Proof.
  unfold chunk_metadata. destruct (0 <? length (topics_of h n)); reflexivity.
Qed.

Lemma prop_fixed ts n :
  prop "timestamp" (chunk_metadata h ts n) = Some (VStr ts)
  /\ prop "source" (chunk_metadata h ts n)
     = Some (VStr (lit "conversation_summary"))
  /\ prop "chunk_length" (chunk_metadata h ts n) = Some (VNum (length n)).
Proof.
  unfold chunk_metadata.
  destruct (0 <? length (topics_of h n)); repeat split; reflexivity.
Qed.

End Extraction.

(** C2. Every chunk returned by [processConversations] has a narrative of
    10 to 200 whitespace-separated words; no string that is empty or whose
    number of words is outside these bounds is the narrative of a returned
    chunk; and when the Generation Service answered [text], the narratives
    are exactly, in order, the trimmed fragments of [text] split on the bar
    that are not empty and within the bounds. *)
Theorem processConversations_word_count :
  forall (h : Host) (summaries : option (list jsstring)) (w w' : World)
         (chunks : list Chunk),
    processConversations h summaries w = (Ok chunks, w') ->
    Forall (fun c => 10 <= word_count (narrative c) <= 200) chunks
    /\ (forall fragment : jsstring,
          fragment = [] \/ ~ 10 <= word_count fragment <= 200 ->
          ~ In fragment (map narrative chunks))
    /\ (forall ss text,
          summaries = Some ss -> ss <> [] ->
          complete h (now w) (extraction_request ss) = Ok text ->
          map narrative chunks =
          filter (fun f => (0 <? length f) && in_bounds f)
            (map trim (split_char 124 (trim text)))).
Proof.
  intros h summaries w w' chunks E.
  assert (Hall : forall f, In f (map narrative chunks) ->
                           f <> [] /\ 10 <= word_count f <= 200).
  { destruct (processConversations_ok _ _ _ _ _ E)
      as [[-> _]|[ss [text [_ [_ [_ [Hn _]]]]]]].
    - intros f [].
    - rewrite Hn. apply chunkTexts_in_bounds. }
  split; [|split].
  - apply Forall_forall. intros c Hc.
    apply (Hall (narrative c)). apply in_map. exact Hc.
  - intros f Hf Hin. destruct (Hall f Hin) as [Hne Hb].
    destruct Hf as [Hf|Hf]; [exact (Hne Hf) | exact (Hf Hb)].
  - intros ss text -> Hss Ec.
    destruct (processConversations_ok _ _ _ _ _ E)
      as [[_ [_ [Hs|Hs]]]|[ss' [text' [Hs [_ [Ec' [Hn _]]]]]]].
    + discriminate.
    + injection Hs as ->. congruence.
    + injection Hs as <-. rewrite Ec in Ec'. injection Ec' as <-.
      rewrite Hn. apply chunkTexts_words.
Qed.

Lemma processConversations_word_count_witness :
  length sample_chunks = 2
  /\ Forall (fun c => 10 <= word_count (narrative c) <= 200) sample_chunks
  /\ ~ In (lit "Likes food.") (map narrative sample_chunks).
Proof.
  split; [reflexivity|].
  destruct (processConversations_word_count sample_host
              (Some sample_summaries) (initial_world [])
              (snd (processConversations sample_host
                      (Some sample_summaries) (initial_world [])))
              sample_chunks)
    as [H1 [H2 _]].
  - vm_compute. reflexivity.
  - split; [exact H1|].
    apply H2. right. vm_compute. lia.
Defined.

(** C8. Every chunk returned by [processConversations] carries, in its
    metadata, the time of a clock reading made during the call as
    [timestamp], the constant [conversation_summary] as [source], the
    length of its narrative as [chunk_length] and, when the lower-cased
    narrative has words longer than five characters, the first three of
    them (repetitions included), joined by a comma and a space, as
    [topics]; otherwise it has no [topics]. *)
Theorem processConversations_metadata :
  forall (h : Host) (summaries : option (list jsstring)) (w w' : World)
         (chunks : list Chunk),
    processConversations h summaries w = (Ok chunks, w') ->
    Forall
      (fun c =>
         (exists t, now w <= t < now w'
                    /\ prop "timestamp" (metadata c)
                       = Some (VStr (toISOString h (clock h t))))
         /\ prop "source" (metadata c)
            = Some (VStr (lit "conversation_summary"))
         /\ prop "chunk_length" (metadata c)
            = Some (VNum (length (narrative c)))
         /\ let topics :=
              firstn 3
                (filter (fun word => 5 <? length word)
                   (split_ws (toLowerCase h (narrative c)))) in
            prop "topics" (metadata c) =
            if 0 <? length topics
            then Some (VStr (join (lit ", ") topics))
            else None)
      chunks.
Proof.
  intros h summaries w w' chunks E.
  destruct (processConversations_ok _ _ _ _ _ E)
    as [[-> _]|[ss [text [_ [_ [_ [_ [_ Hm]]]]]]]]; [constructor|].
  eapply Forall_impl; [|exact Hm].
  intros c [t [Ht Hc]]. rewrite Hc.
  destruct (prop_fixed h (toISOString h (clock h t)) (narrative c))
    as [P1 [P2 P3]].
  split; [exists t; split; [exact Ht | exact P1]|].
  split; [exact P2|]. split; [exact P3|].
  apply prop_topics.
Qed.

Lemma processConversations_metadata_witness :
  Forall
    (fun c =>
       prop "source" (metadata c) = Some (VStr (lit "conversation_summary"))
       /\ prop "chunk_length" (metadata c)
          = Some (VNum (length (narrative c))))
    sample_chunks.
Proof.
  pose proof (processConversations_metadata sample_host
                (Some sample_summaries) (initial_world [])
                (snd (processConversations sample_host
                        (Some sample_summaries) (initial_world [])))
                sample_chunks) as H.
  eapply Forall_impl; [|apply H; vm_compute; reflexivity].
  intros c [_ [H1 [H2 _]]]. split; assumption.
Defined.

(** C8, as the specification words it, fails: the topics of a chunk are
    not the first three distinct words.  The narrative [The user enjoys
    running and running shoes because running keeps the user healthy.]
    gets the topics [enjoys, running, running], where the first three
    distinct long words are [enjoys], [running] and [because]. *)
Lemma processConversations_topics_repeat :
  exists c,
    In c sample_chunks
    /\ prop "topics" (metadata c)
       = Some (VStr (lit "enjoys, running, running"))
    /\ distinct_topics sample_host (narrative c)
       = [lit "enjoys"; lit "running"; lit "because"]
    /\ prop "topics" (metadata c)
       <> Some (VStr (join (lit ", ")
                        (distinct_topics sample_host (narrative c)))).
Proof.
  exists (nth 1 sample_chunks sample_chunk).
  split; [vm_compute; right; left; reflexivity|].
  split; [vm_compute; reflexivity|].
  split; [vm_compute; reflexivity|].
  vm_compute. discriminate.
Qed.

(** ** The Vector Memory Store *)

(** Unfolds the combinators of the monad and the requests. *)
Ltac run :=
  cbv [bind ret throw try_catch get_world update on_collection
       backend_request chat_completions_create embeddings_create Date_now
       getOrCreateCollection collection_count collection_get
       collection_delete collection_add collection_query generateEmbedding];
  cbn.

Section VectorStore.
Variable h : Host.

Lemma initializeChroma_run w :
  initializeChroma h w =
  if client w then (Ok (collection w), w)
  else
    match backend_fault h (now w) with
    | Some e =>
        (Err e, record_call CallGetOrCreateCollection (set_client true w))
    | None =>
        (Ok true,
         set_collection true
           (record_call CallGetOrCreateCollection
              (set_backend (backend w) (set_client true w))))
    end.
Proof.
  unfold initializeChroma. run.
  destruct (client w); [reflexivity|]. cbn.
  destruct (backend_fault h (now w)); reflexivity.
Qed.

Lemma initializeChroma_ok w c w' :
  initializeChroma h w = (Ok c, w') ->
  client w' = true /\ collection w' = c /\ backend w' = backend w.
Proof.
  rewrite initializeChroma_run.
  destruct (client w) eqn:Hc.
  - intros E. injection E as <- <-. auto.
  - destruct (backend_fault h (now w)); [discriminate|].
    intros E. injection E as <- <-. cbn. auto.
Qed.

Lemma jsstring_eqb_refl s : jsstring_eqb s s = true.
Proof.
  induction s as [|c s IH]; [reflexivity|].
  simpl. rewrite N.eqb_refl. exact IH.
Qed.

Lemma mem_id_in x ids : In x ids -> mem_id x ids = true.
Proof.
  intros Hx. unfold mem_id. apply existsb_exists.
  exists x. split; [exact Hx | apply jsstring_eqb_refl].
Qed.

Lemma delete_all store : delete_records (map rec_id store) store = [].
Proof.
  unfold delete_records.
  assert (H : forall ids l, (forall r, In r l -> In (rec_id r) ids) ->
                            filter (fun r => negb (mem_id (rec_id r) ids)) l
                            = []).
  { intros ids l. induction l as [|r l IH]; intros Hl; [reflexivity|].
    simpl. rewrite (mem_id_in _ _ (Hl r (or_introl eq_refl))). simpl.
    apply IH. intros r' Hr'. apply Hl. right. exact Hr'. }
  apply H. intros r Hr. apply in_map. exact Hr.
Qed.

(** What a call of [clearAllMemories] that returns has done. *)
Lemma clearAllMemories_ok w n w1 :
  clearAllMemories h w = (Ok n, w1) ->
  n = length (backend w) /\ backend w1 = [] /\ connected w1.
Proof.
  unfold clearAllMemories. rewrite rethrow. unfold bind at 1.
  destruct (initializeChroma h w) as [[c|e] w0] eqn:Ei; [|discriminate].
  destruct (initializeChroma_ok _ _ _ Ei) as [Hcl [Hco Hb]].
  run. rewrite Hco, Hb.
  destruct c; [|discriminate].
  destruct (backend_fault h (now w0)); [discriminate|]. cbn.
  destruct (backend w) as [|r store] eqn:Es.
  - cbn. intros E. injection E as <- <-. cbn. unfold connected. cbn. auto.
  - cbn. rewrite Hco.
    destruct (backend_fault h (S (now w0))); [discriminate|]. cbn.
    rewrite Hco.
    destruct (backend_fault h (S (S (now w0)))); [discriminate|]. cbn.
    intros E. injection E as <- <-. cbn. unfold connected. cbn.
    pose proof (delete_all (r :: store)) as Hd. cbn in Hd.
    rewrite jsstring_eqb_refl in *. cbn in *. auto.
Qed.

Lemma clearAllMemories_again w :
  connected w -> backend w = [] ->
  exists w',
    clearAllMemories h w
    = (match backend_fault h (now w) with
       | Some e => Err e
       | None => Ok 0
       end, w')
    /\ backend w' = [].
Proof.
  intros [Hcl Hco] Hb.
  unfold clearAllMemories. rewrite rethrow. unfold bind at 1.
  rewrite initializeChroma_run, Hcl. run. rewrite Hco, Hb.
  destruct (backend_fault h (now w)); cbn; eauto.
Qed.

Lemma getAllMemories_empty w :
  backend w = [] -> fst (getAllMemories h w) = Ok [].
Proof.
  intros Hb. unfold getAllMemories, try_catch, bind at 1.
  destruct (initializeChroma h w) as [[c|e] w0] eqn:Ei; [|reflexivity].
  destruct (initializeChroma_ok _ _ _ Ei) as [_ [Hco Hb0]].
  run. rewrite Hco, Hb0, Hb.
  destruct c; [|reflexivity].
  destruct (backend_fault h (now w0)); reflexivity.
Qed.

Lemma getAllMemories_total w :
  exists memories, fst (getAllMemories h w) = Ok memories.
Proof.
  unfold getAllMemories, try_catch.
  match goal with
  | |- context [match ?m w with _ => _ end] =>
      destruct (m w) as [[l|e] w']
  end; cbn; eauto.
Qed.

Lemma searchMemories_total query limit w :
  exists results, fst (searchMemories h query limit w) = Ok results.
Proof.
  unfold searchMemories, try_catch.
  match goal with
  | |- context [match ?m w with _ => _ end] =>
      destruct (m w) as [[l|e] w']
  end; cbn; eauto.
Qed.

End VectorStore.

(** C5. After a call of [clearAllMemories] that returns, the number
    returned is the number of records the collection held, the collection
    is empty, a call that follows immediately returns 0 (or throws the error of the backend when
    its [count] request fails), and [getAllMemories] then returns the empty
    list. *)
Theorem clearAllMemories_idempotent :
  forall (h : Host) (w w1 : World) (n : nat),
    clearAllMemories h w = (Ok n, w1) ->
    n = length (backend w)
    /\ backend w1 = []
    /\ fst (clearAllMemories h w1)
       = match backend_fault h (now w1) with
         | Some e => Err e
         | None => Ok 0
         end
    /\ fst (getAllMemories h (snd (clearAllMemories h w1))) = Ok []
    /\ fst (getAllMemories h w1) = Ok [].
Proof.
  intros h w w1 n E.
  destruct (clearAllMemories_ok h _ _ _ E) as [Hn [Hb Hc]].
  destruct (clearAllMemories_again h w1 Hc Hb) as [w2 [E2 Hb2]].
  rewrite E2. cbn [fst snd].
  repeat split; auto using getAllMemories_empty.
Qed.

Lemma clearAllMemories_idempotent_witness :
  let w1 := snd (clearAllMemories sample_host (initial_world sample_store)) in
  2 = length sample_store
  /\ backend w1 = []
  /\ fst (clearAllMemories sample_host w1) = Ok 0
  /\ fst (getAllMemories sample_host (snd (clearAllMemories sample_host w1)))
     = Ok []
  /\ fst (getAllMemories sample_host w1) = Ok [].
Proof.
  intros w1.
  apply (clearAllMemories_idempotent sample_host
           (initial_world sample_store) w1 2).
  vm_compute. reflexivity.
Defined.



(** C4. [searchMemories] never throws, and it returns the empty array when
    the initialization, the embedding of the query or the query of the
    collection fails. *)
Theorem searchMemories_degrades :
  forall (h : Host) (query : jsstring) (limit : Z) (w : World),
    (exists results, fst (searchMemories h query limit w) = Ok results)
    /\ (forall e w0,
          initializeChroma h w = (Err e, w0) ->
          fst (searchMemories h query limit w) = Ok [])
    /\ (forall c w0 e w1,
          initializeChroma h w = (Ok c, w0) ->
          generateEmbedding h query w0 = (Err e, w1) ->
          fst (searchMemories h query limit w) = Ok [])
    /\ (forall c w0 queryEmbedding w1 e w2,
          initializeChroma h w = (Ok c, w0) ->
          generateEmbedding h query w0 = (Ok queryEmbedding, w1) ->
          collection_query h queryEmbedding limit w1 = (Err e, w2) ->
          fst (searchMemories h query limit w) = Ok []).
Proof.
  intros h query limit w.
  split; [apply searchMemories_total|].
  split; [|split].
  - intros e w0 Ei.
    unfold searchMemories, try_catch, bind at 1. rewrite Ei. reflexivity.
  - intros c w0 e w1 Ei Ee.
    unfold searchMemories, try_catch, bind at 1. rewrite Ei.
    unfold bind at 1. rewrite Ee. reflexivity.
  - intros c w0 v w1 e w2 Ei Ee Eq.
    unfold searchMemories, try_catch, bind at 1. rewrite Ei.
    unfold bind at 1. rewrite Ee. unfold bind at 1. rewrite Eq. reflexivity.
Qed.

Lemma searchMemories_degrades_witness :
  fst (searchMemories no_embedding_host (lit "anything") 3 (initial_world []))
  = Ok [].
Proof.
  destruct (searchMemories_degrades no_embedding_host (lit "anything") 3
              (initial_world [])) as [_ [_ [H _]]].
  eapply (H true _ api_error); reflexivity.
Defined.

(** C6. When the request to the Generation Service fails,
    [reformulateQuery] returns its input unchanged. *)
Theorem reformulateQuery_fallback :
  forall (h : Host) (input : jsstring) (recentContext : list Message)
         (w : World) (e : JsError),
    complete h (now w) (reformulation_request input recentContext) = Err e ->
    fst (reformulateQuery h input recentContext w) = Ok input.
Proof.
  intros h input recentContext w e E.
  unfold reformulateQuery, try_catch, bind, chat_completions_create.
  rewrite E. reflexivity.
Qed.

Lemma reformulateQuery_fallback_witness :
  fst (reformulateQuery offline_host (lit "where do I live?")
         [ {| role := user; content := lit "hello" |} ] (initial_world []))
  = Ok (lit "where do I live?").
Proof.
  apply (reformulateQuery_fallback offline_host _ _ _ api_error).
  reflexivity.
Defined.

(** ** Chunk identifiers *)

Section Identifiers.











Variable h : Host.

Lemma generate_ids_from (chunks : list Chunk) :
  forall idx w, exists ids w',
    mapiM_from (fun idx _ => t <- Date_now h ;; ret (chunk_id t idx))
      idx chunks w = (Ok ids, w')
    /\ length ids = length chunks
    /\ (forall k, k < length chunks ->
                  nth_error ids k
                  = Some (chunk_id (clock h (now w + k)) (idx + k)))
    /\ trace w' = repeat CallClock (length chunks) ++ trace w
    /\ backend w' = backend w /\ collection w' = collection w
    /\ client w' = client w /\ session w' = session w.
Proof.
  induction chunks as [|c chunks IH]; intros idx w.
  - exists [], w. cbn. repeat split; auto. intros k Hk. lia.
  - destruct (IH (S idx) (record_call CallClock w))
      as [ids [w' [E [Hl [Hk [Ht [Hb [Hco [Hcl Hs]]]]]]]]].
    exists (chunk_id (clock h (now w)) idx :: ids), w'.
    split; [|split; [|split; [|split]]].
    + rewrite mapiM_from_cons.
      change ((t <- Date_now h ;; ret (chunk_id t idx)) w) with
        (@Ok jsstring (chunk_id (clock h (now w)) idx),
         record_call CallClock w).
      cbv beta iota. rewrite E. reflexivity.
    + cbn. rewrite Hl. reflexivity.
    + intros [|k] Hlt.
      * cbn. rewrite !Nat.add_0_r. reflexivity.
      * cbn [nth_error]. rewrite Hk by (cbn in Hlt; lia).
        cbn [trace record_call length].
        replace (S (now w) + k) with (now w + S k) by lia.
        replace (S idx + k) with (idx + S k) by lia. reflexivity.
    + rewrite Ht. cbn [trace record_call length repeat].
      rewrite (repeat_cons (length chunks) CallClock).
      rewrite <- app_assoc. reflexivity.
    + auto.
Qed.



Lemma initializeChroma_added w :
  added_ids (trace (snd (initializeChroma h w))) = added_ids (trace w).
Proof.
  rewrite initializeChroma_run.
  destruct (client w); [reflexivity|].
  destruct (backend_fault h (now w)); reflexivity.
Qed.

Lemma embeddings_added (chunks : list Chunk) :
  forall w,
    added_ids
      (trace (snd (mapM (fun chunk => generateEmbedding h (narrative chunk))
                     chunks w)))
    = added_ids (trace w).
Proof.
  induction chunks as [|c chunks IH]; intros w; [reflexivity|].
  rewrite mapM_cons.
  change (generateEmbedding h (narrative c) w) with
    (match embed h (now w) (narrative c) with
     | Ok v => (Ok v, record_call (CallEmbed (narrative c)) w)
     | Err e => (Err e, record_call (CallEmbed (narrative c)) w)
     end).
  destruct (embed h (now w) (narrative c)) as [v|e]; [|reflexivity].
  specialize (IH (record_call (CallEmbed (narrative c)) w)).
  destruct (mapM _ chunks _) as [[vs|e] w']; exact IH.
Qed.


End Identifiers.




(** ** The session state is private to the console application *)

Section Frame.

Lemma frames_ret {A} (a : A) : frames (ret a).
Proof. intros w. reflexivity. Qed.

Lemma frames_throw {A} e : frames (@throw A e).
Proof. intros w. reflexivity. Qed.

Lemma frames_bind {A B} (m : M A) (k : A -> M B) :
  frames m -> (forall a, frames (k a)) -> frames (bind m k).
Proof.
  intros Hm Hk w. unfold bind. specialize (Hm w).
  destruct (m w) as [[a|e] w']; [|exact Hm].
  rewrite (Hk a w'). exact Hm.
Qed.

Lemma frames_try_catch {A} (m : M A) handler :
  frames m -> (forall e, frames (handler e)) -> frames (try_catch m handler).
Proof.
  intros Hm Hh w. unfold try_catch. specialize (Hm w).
  destruct (m w) as [[a|e] w']; [exact Hm|].
  rewrite (Hh e w'). exact Hm.
Qed.

Lemma frames_mapM {A B} (f : A -> M B) l :
  (forall x, frames (f x)) -> frames (mapM f l).
Proof.
  intros Hf. induction l as [|x l IH]; [apply frames_ret|].
  simpl. apply frames_bind; [apply Hf|]. intros y.
  apply frames_bind; [exact IH|]. intros ys. intros w. reflexivity.
Qed.

Lemma frames_mapiM_from {A B} (f : nat -> A -> M B) l :
  (forall idx x, frames (f idx x)) -> forall idx, frames (mapiM_from f idx l).
Proof.
  intros Hf. induction l as [|x l IH]; intros idx; [intros w; reflexivity|].
  simpl. apply frames_bind; [apply Hf|]. intros y.
  apply frames_bind; [apply IH|]. intros ys. intros w. reflexivity.
Qed.

Lemma frames_on_collection {A} (m : M A) : frames m -> frames (on_collection m).
Proof.
  intros Hm w. unfold on_collection. destruct (collection w); [apply Hm|].
  reflexivity.
Qed.

Lemma frames_backend_request {A} h c (answer : World -> A) effect :
  frames (backend_request h c answer effect).
Proof.
  intros w. unfold backend_request.
  destruct (backend_fault h (now w)); reflexivity.
Qed.

End Frame.

Create HintDb frame.
#[local] Hint Resolve frames_ret frames_throw frames_bind frames_try_catch
  frames_mapM frames_mapiM_from frames_on_collection frames_backend_request
  : frame.

Section FrameOperations.

Variable h : Host.

Lemma frames_chat_completions_create req :
  frames (chat_completions_create h req).
Proof. intros w. reflexivity. Qed.

Lemma frames_embeddings_create input : frames (embeddings_create h input).
Proof. intros w. reflexivity. Qed.

Lemma frames_Date_now : frames (Date_now h).
Proof. intros w. reflexivity. Qed.

Lemma frames_get_world : frames get_world.
Proof. intros w. reflexivity. Qed.

Lemma frames_set_client c : frames (update (set_client c)).
Proof. intros w. reflexivity. Qed.

Lemma frames_set_collection c : frames (update (set_collection c)).
Proof. intros w. reflexivity. Qed.

Hint Resolve frames_chat_completions_create frames_embeddings_create
  frames_Date_now frames_get_world frames_set_client frames_set_collection
  : frame.

Lemma frames_initializeChroma : frames (initializeChroma h).
Proof.
  unfold initializeChroma, getOrCreateCollection.
  apply frames_bind; [auto with frame|]. intros w.
  apply frames_bind; [|auto 6 with frame].
  destruct (negb (client w)); auto 8 with frame.
Qed.

Lemma frames_generateEmbedding text : frames (generateEmbedding h text).
Proof. unfold generateEmbedding. auto with frame. Qed.

Lemma frames_summarizeConversation cache :
  frames (summarizeConversation h cache).
Proof. unfold summarizeConversation. auto with frame. Qed.

Hint Resolve frames_initializeChroma frames_generateEmbedding
  frames_summarizeConversation : frame.

Lemma frames_searchMemories query limit : frames (searchMemories h query limit).
Proof.
  unfold searchMemories, collection_query, mapiM.
  apply frames_try_catch; [|auto with frame].
  apply frames_bind; [auto with frame|]. intros _.
  apply frames_bind; [auto with frame|]. intros v.
  apply frames_bind; [auto with frame|]. intros results.
  destruct (q_documents results) as [|documents0 ?]; [auto with frame|].
  destruct (0 <? length documents0); [|auto with frame].
  apply frames_mapiM_from. intros idx doc. unfold search_result.
  destruct (q_metadatas results); [auto with frame|].
  destruct (q_distances results); auto with frame.
Qed.

Lemma frames_storeMemories chunks : frames (storeMemories h chunks).
Proof.
  unfold storeMemories, collection_add, generate_ids, mapiM.
  apply frames_try_catch; [|auto with frame].
  apply frames_bind; [auto with frame|]. intros _.
  destruct chunks as [[|c cs]|]; auto 8 with frame.
Qed.

Lemma frames_processConversations summaries :
  frames (processConversations h summaries).
Proof. intros w. apply processConversations_session. Qed.

Lemma frames_reformulateQuery input recentContext :
  frames (reformulateQuery h input recentContext).
Proof. unfold reformulateQuery. auto 6 with frame. Qed.

Lemma frames_contextsToProcess : frames (contextsToProcess h).
Proof.
  unfold contextsToProcess.
  apply frames_bind; [auto with frame|]. intros w.
  destruct (1 <? length (conversationCache w)); auto 6 with frame.
Qed.

End FrameOperations.

Section Chat.

Variable h : Host.

Lemma reformulateQuery_run input recentContext w :
  exists query w',
    reformulateQuery h input recentContext w = (Ok query, w')
    /\ session w' = session w.
Proof.
  unfold reformulateQuery, try_catch, bind, chat_completions_create, ret.
  destruct (complete h (now w) (reformulation_request input recentContext));
    eexists; eexists; split; reflexivity.
Qed.

Lemma searchMemories_run query limit w :
  exists memories w',
    searchMemories h query limit w = (Ok memories, w')
    /\ session w' = session w.
Proof.
  destruct (searchMemories_total h query limit w) as [memories Hm].
  pose proof (frames_searchMemories h query limit w) as Hf.
  destruct (searchMemories h query limit w) as [r w'].
  cbn in Hm, Hf. subst r. eauto.
Qed.

Lemma summarizeConversation_run cache w :
  summarizeConversation h cache w
  = (complete h (now w) (summary_request cache),
     record_call (CallComplete (summary_request cache)) w).
Proof.
  unfold summarizeConversation. rewrite rethrow. reflexivity.
Qed.






End Chat.




(** ** The manual process flow *)

(** C3. [processSummaries] never throws.  It either leaves the rolling
    summary and the cache as they were, or empties both after
    [processConversations] has returned a non-empty list of chunks and
    [storeMemories] has stored it.  When [processConversations] or
    [storeMemories] throws, the rolling summary and the cache are left as
    they were. *)
Theorem processSummaries_clears_after_store :
  forall (h : Host) (w w' : World) (r : result unit),
    processSummaries h w = (r, w') ->
    r = Ok tt
    /\ (session w' = session w
        \/ (session w' = ([], [])
            /\ exists contexts w1 chunks w2 w3,
                 contextsToProcess h w = (Ok contexts, w1)
                 /\ processConversations h (Some contexts) w1
                    = (Ok chunks, w2)
                 /\ chunks <> []
                 /\ storeMemories h (Some chunks) w2 = (Ok tt, w3)))
    /\ (forall contexts w1 e w2,
          contextsToProcess h w = (Ok contexts, w1) ->
          processConversations h (Some contexts) w1 = (Err e, w2) ->
          session w' = session w)
    /\ (forall contexts w1 chunks w2 e w3,
          contextsToProcess h w = (Ok contexts, w1) ->
          processConversations h (Some contexts) w1 = (Ok chunks, w2) ->
          storeMemories h (Some chunks) w2 = (Err e, w3) ->
          session w' = session w).
Proof.
  intros h w w' r E.
  unfold processSummaries in E.
  unfold bind at 1 in E. unfold get_world at 1 in E. cbv beta iota in E.
  destruct (negb (truthy (currentSummary w))
            && (length (conversationCache w) =? 0)).
  { cbv [ret] in E. injection E as <- <-. auto 6. }
  unfold try_catch in E. unfold bind at 1 in E.
  pose proof (frames_contextsToProcess h w) as F1.
  destruct (contextsToProcess h w) as [[contexts|e] w1] eqn:E1;
    cbn [snd] in F1; cbv beta iota in E;
    [|cbv [ret] in E; injection E as <- <-;
      repeat split; auto; intros; discriminate].
  destruct (length contexts =? 0) eqn:Hc.
  { cbv [ret] in E. injection E as <- <-.
    split; [reflexivity|]. split; [left; exact F1|]. split; intros; exact F1. }
  unfold bind at 1 in E.
  pose proof (frames_processConversations h (Some contexts) w1) as F2.
  destruct (processConversations h (Some contexts) w1) as [[chunks|e] w2]
    eqn:E2; cbn [snd] in F2; cbv beta iota in E;
    [|cbv [ret] in E; injection E as <- <-;
      split; [reflexivity|]; split; [left; congruence|];
      split; intros; congruence].
  destruct (0 <? length chunks) eqn:Hn.
  2:{ cbv [ret] in E. injection E as <- <-.
      split; [reflexivity|]. split; [left; congruence|].
      split; intros; congruence. }
  unfold bind at 1 in E.
  pose proof (frames_storeMemories h (Some chunks) w2) as F3.
  destruct (storeMemories h (Some chunks) w2) as [[[]|e] w3] eqn:E3;
    cbn [snd] in F3; cbv beta iota in E.
  - cbv [bind update ret] in E. injection E as <- <-.
    split; [reflexivity|]. split; [|split].
    + right. split; [reflexivity|].
      exists contexts, w1, chunks, w2, w3.
      split; [reflexivity|]. split; [exact E2|].
      split; [|exact E3]. intros ->. discriminate.
    + intros contexts' w1' e w2' E1' E2'. injection E1' as <- <-.
      congruence.
    + intros contexts' w1' chunks' w2' e w3' E1' E2' E3'.
      injection E1' as <- <-. rewrite E2 in E2'. injection E2' as <- <-.
      congruence.
  - cbv [ret] in E. injection E as <- <-.
    split; [reflexivity|]. split; [left; congruence|].
    split; intros; congruence.
Qed.

Lemma processSummaries_clears_after_store_witness :
  session (snd (processSummaries offline_host sample_world))
  = session sample_world
  /\ session (snd (processSummaries sample_host sample_world)) = ([], []).
Proof.
  split; [|vm_compute; reflexivity].
  destruct (processSummaries_clears_after_store offline_host sample_world
              _ _ (surjective_pairing
                     (processSummaries offline_host sample_world)))
    as [_ [_ [H _]]].
  eapply H.
  - vm_compute. reflexivity.
  - vm_compute. reflexivity.
Defined.

(** * Further properties of the code *)

(** ** What the operations leave alone *)

Section Keeps.

Context {X : Type} (proj : World -> X).

Lemma keeps_ret {A} (a : A) : keeps proj (ret a).
Proof. intros w. reflexivity. Qed.

Lemma keeps_throw {A} e : keeps proj (@throw A e).
Proof. intros w. reflexivity. Qed.

Lemma keeps_get_world : keeps proj get_world.
Proof. intros w. reflexivity. Qed.

Lemma keeps_bind {A B} (m : M A) (k : A -> M B) :
  keeps proj m -> (forall a, keeps proj (k a)) -> keeps proj (bind m k).
Proof.
  intros Hm Hk w. unfold bind. specialize (Hm w).
  destruct (m w) as [[a|e] w']; [|exact Hm].
  rewrite (Hk a w'). exact Hm.
Qed.

Lemma keeps_try_catch {A} (m : M A) handler :
  keeps proj m -> (forall e, keeps proj (handler e)) ->
  keeps proj (try_catch m handler).
Proof.
  intros Hm Hh w. unfold try_catch. specialize (Hm w).
  destruct (m w) as [[a|e] w']; [exact Hm|].
  rewrite (Hh e w'). exact Hm.
Qed.

Lemma keeps_mapM {A B} (f : A -> M B) l :
  (forall x, keeps proj (f x)) -> keeps proj (mapM f l).
Proof.
  intros Hf. induction l as [|x l IH]; [intros w; reflexivity|].
  simpl. apply keeps_bind; [apply Hf|]. intros y.
  apply keeps_bind; [exact IH|]. intros ys w. reflexivity.
Qed.

Lemma keeps_mapiM_from {A B} (f : nat -> A -> M B) l :
  (forall idx x, keeps proj (f idx x)) ->
  forall idx, keeps proj (mapiM_from f idx l).
Proof.
  intros Hf. induction l as [|x l IH]; intros idx; [intros w; reflexivity|].
  simpl. apply keeps_bind; [apply Hf|]. intros y.
  apply keeps_bind; [apply IH|]. intros ys w. reflexivity.
Qed.

Lemma keeps_on_collection {A} (m : M A) :
  keeps proj m -> keeps proj (on_collection m).
Proof.
  intros Hm w. unfold on_collection. destruct (collection w); [apply Hm|].
  reflexivity.
Qed.

Hypothesis proj_untraced : untraced proj.

Lemma keeps_chat_completions_create h req :
  keeps proj (chat_completions_create h req).
Proof. intros w. apply proj_untraced. Qed.

Lemma keeps_embeddings_create h input :
  keeps proj (embeddings_create h input).
Proof. intros w. apply proj_untraced. Qed.

Lemma keeps_Date_now h : keeps proj (Date_now h).
Proof. intros w. apply proj_untraced. Qed.

Lemma keeps_generateEmbedding h text : keeps proj (generateEmbedding h text).
Proof.
  unfold generateEmbedding.
  apply keeps_try_catch; [apply keeps_embeddings_create|].
  intros e. apply keeps_throw.
Qed.

Lemma keeps_summarizeConversation h cache :
  keeps proj (summarizeConversation h cache).
Proof.
  unfold summarizeConversation.
  apply keeps_try_catch; [apply keeps_chat_completions_create|].
  intros e. apply keeps_throw.
Qed.

Lemma keeps_make_chunk h narrative : keeps proj (make_chunk h narrative).
Proof.
  unfold make_chunk. apply keeps_bind; [apply keeps_Date_now|].
  intros t. apply keeps_ret.
Qed.

Lemma keeps_processConversations h summaries :
  keeps proj (processConversations h summaries).
Proof.
  unfold processConversations.
  apply keeps_try_catch; [|intros e; apply keeps_throw].
  destruct summaries as [[|s ss]|]; try apply keeps_ret.
  apply keeps_bind; [apply keeps_chat_completions_create|].
  intros text. apply keeps_mapM. intros n. apply keeps_make_chunk.
Qed.

Lemma keeps_reformulateQuery h input recentContext :
  keeps proj (reformulateQuery h input recentContext).
Proof.
  unfold reformulateQuery.
  apply keeps_try_catch; [|intros e; apply keeps_ret].
  apply keeps_bind; [apply keeps_chat_completions_create|].
  intros text. apply keeps_ret.
Qed.

(** A request that does not change the content of the collection. *)
Lemma keeps_backend_read {A} h c (answer : World -> A) :
  keeps proj (backend_request h c answer (fun b => b)).
Proof.
  intros w. unfold backend_request.
  destruct (backend_fault h (now w)); cbn [snd]; rewrite proj_untraced;
    [reflexivity|].
  destruct w; reflexivity.
Qed.

End Keeps.

Lemma untraced_backend : untraced backend.
Proof. intros c w. reflexivity. Qed.

Lemma untraced_store_handle : untraced store_handle.
Proof. intros c w. reflexivity. Qed.

Lemma untraced_session : untraced session.
Proof. intros c w. reflexivity. Qed.

(** ** More on the Vector Memory Store *)

Section StoreMore.

Variable h : Host.

Lemma keeps_initializeChroma_backend : keeps backend (initializeChroma h).
Proof.
  intros w. rewrite initializeChroma_run.
  destruct (client w); [reflexivity|].
  destruct (backend_fault h (now w)); reflexivity.
Qed.


Lemma zip_records_fields ids :
  forall es docs ms,
    length es = length ids -> length docs = length ids ->
    length ms = length ids ->
    map rec_id (zip_records ids es docs ms) = ids
    /\ map rec_document (zip_records ids es docs ms) = docs
    /\ map rec_metadata (zip_records ids es docs ms) = ms.
Proof.
  induction ids as [|i ids IH]; intros [|e es] [|d docs] [|m ms] H1 H2 H3;
    try discriminate; [repeat split|].
  cbn in *. destruct (IH es docs ms) as [E1 [E2 E3]]; try lia.
  rewrite E1, E2, E3. repeat split.
Qed.



Lemma firstn_length_all {A} (l : list A) : firstn (length l) l = l.
Proof. apply firstn_all. Qed.

Lemma mapi_from_records (rs : list StoredRecord) :
  forall idx pre_ids pre_ms,
    length pre_ids = idx -> length pre_ms = idx ->
    mapi_from
      (fun idx doc =>
         {| sm_id := nth_error (pre_ids ++ map rec_id rs) idx;
            sm_narrative := doc;
            sm_metadata := nth idx (pre_ms ++ map rec_metadata rs) [] |})
      idx (map rec_document rs)
    = map memory_of_record rs.
Proof.
  induction rs as [|r rs IH]; intros idx pre_ids pre_ms H1 H2;
    [reflexivity|].
  cbn [map mapi_from]. f_equal.
  - unfold memory_of_record. f_equal.
    + rewrite nth_error_app2 by lia. rewrite H1, Nat.sub_diag. reflexivity.
    + rewrite app_nth2 by lia. rewrite H2, Nat.sub_diag. reflexivity.
  - specialize (IH (S idx) (pre_ids ++ [rec_id r]) (pre_ms ++ [rec_metadata r])).
    rewrite <- !app_assoc in IH. cbn [app] in IH.
    apply IH; rewrite length_app; cbn; lia.
Qed.

(** What [getAllMemories] returns when the backend answers. *)
Lemma getAllMemories_records w :
  connected w ->
  backend_fault h (now w) = None ->
  backend_fault h (S (now w)) = None ->
  fst (getAllMemories h w) = Ok (map memory_of_record (backend w)).
Proof.
  intros [Hcl Hco] F0 F1.
  unfold getAllMemories, try_catch, bind at 1.
  rewrite initializeChroma_run, Hcl. run. rewrite Hco, F0. cbn.
  destruct (backend w) as [|r rs] eqn:Eb; [reflexivity|].
  cbn. rewrite Hco, F1. cbn. rewrite firstn_all.
  f_equal. f_equal.
  exact (mapi_from_records rs 1 [rec_id r] [rec_metadata r] eq_refl eq_refl).
Qed.

Lemma keeps_getAllMemories_backend : keeps backend (getAllMemories h).
Proof.
  unfold getAllMemories, collection_count, collection_get.
  apply keeps_try_catch; [|intros e; apply keeps_ret].
  apply keeps_bind; [apply keeps_initializeChroma_backend|]. intros _.
  apply keeps_bind;
    [apply keeps_on_collection, keeps_backend_read, untraced_backend|].
  intros count. destruct (count =? 0); [apply keeps_ret|].
  apply keeps_bind;
    [apply keeps_on_collection, keeps_backend_read, untraced_backend|].
  intros results.
  destruct (0 <? length (g_documents results)); apply keeps_ret.
Qed.

Lemma keeps_searchMemories_backend query limit :
  keeps backend (searchMemories h query limit).
Proof.
  unfold searchMemories, collection_query, mapiM.
  apply keeps_try_catch; [|intros e; apply keeps_ret].
  apply keeps_bind; [apply keeps_initializeChroma_backend|]. intros _.
  apply keeps_bind; [apply keeps_generateEmbedding, untraced_backend|].
  intros v.
  apply keeps_bind;
    [apply keeps_on_collection, keeps_backend_read, untraced_backend|].
  intros results.
  destruct (q_documents results) as [|documents0 ?]; [apply keeps_ret|].
  destruct (0 <? length documents0); [|apply keeps_ret].
  apply keeps_mapiM_from. intros idx doc. unfold search_result.
  destruct (q_metadatas results); [apply keeps_throw|].
  destruct (q_distances results); [apply keeps_throw | apply keeps_ret].
Qed.

Lemma keeps_getAllMemories_session : keeps session (getAllMemories h).
Proof.
  unfold getAllMemories, collection_count, collection_get.
  apply keeps_try_catch; [|intros e; apply keeps_ret].
  apply keeps_bind; [exact (frames_initializeChroma h)|]. intros _.
  apply keeps_bind;
    [apply keeps_on_collection, keeps_backend_read, untraced_session|].
  intros count. destruct (count =? 0); [apply keeps_ret|].
  apply keeps_bind;
    [apply keeps_on_collection, keeps_backend_read, untraced_session|].
  intros results.
  destruct (0 <? length (g_documents results)); apply keeps_ret.
Qed.

Lemma keeps_clearAllMemories_session : keeps session (clearAllMemories h).
Proof.
  unfold clearAllMemories, collection_count, collection_get,
    collection_delete.
  apply keeps_try_catch; [|intros e; apply keeps_throw].
  apply keeps_bind; [exact (frames_initializeChroma h)|]. intros _.
  apply keeps_bind;
    [apply keeps_on_collection, keeps_backend_read, untraced_session|].
  intros count. destruct (count =? 0); [apply keeps_ret|].
  apply keeps_bind;
    [apply keeps_on_collection, keeps_backend_read, untraced_session|].
  intros results.
  destruct (0 <? length (g_ids results)); [|apply keeps_ret].
  apply keeps_bind; [|intros _; apply keeps_ret].
  apply keeps_on_collection. exact (frames_backend_request h _ _ _).
Qed.

End StoreMore.



(** X2. On an initialized handle and with the backend answering,
    [getAllMemories] returns one memory for each record of the collection,
    in the order of the collection, with the identifier, the document and
    the metadata of the record, and leaves the collection as it was. *)
Theorem getAllMemories_lists_the_collection :
  forall (h : Host) (w : World),
    connected w ->
    backend_fault h (now w) = None ->
    backend_fault h (S (now w)) = None ->
    fst (getAllMemories h w)
    = Ok (map (fun r => {| sm_id := Some (rec_id r);
                           sm_narrative := rec_document r;
                           sm_metadata := rec_metadata r |}) (backend w))
    /\ backend (snd (getAllMemories h w)) = backend w.
Proof.
  intros h w Hc F0 F1. split.
  - exact (getAllMemories_records h w Hc F0 F1).
  - apply keeps_getAllMemories_backend.
Qed.

Lemma getAllMemories_lists_the_collection_witness :
  let w := snd (clearAllMemories sample_host (initial_world sample_store)) in
  let w' := snd (storeMemories sample_host (Some [sample_chunk]) w) in
  fst (getAllMemories sample_host w')
  = Ok [ {| sm_id := Some (lit "chunk_1700000000005_0");
            sm_narrative := narrative sample_chunk;
            sm_metadata := metadata sample_chunk |} ].
Proof.
  intros w w'.
  destruct (getAllMemories_lists_the_collection sample_host w') as [E _];
    [split; reflexivity | reflexivity | reflexivity |].
  rewrite E. vm_compute. reflexivity.
Defined.

(** X3. With no chunks to store, [storeMemories] asks for no embedding and
    sends no [add]: at most the connection request goes out, and the
    collection is left as it was. *)
Theorem storeMemories_nothing_to_store :
  forall (h : Host) (chunks : option (list Chunk)) (w : World),
    chunks = None \/ chunks = Some [] ->
    let w' := snd (storeMemories h chunks w) in
    (trace w' = trace w \/ trace w' = CallGetOrCreateCollection :: trace w)
    /\ backend w' = backend w
    /\ (client w = true -> storeMemories h chunks w = (Ok tt, w)).
Proof.
  intros h chunks w Hc w'. subst w'.
  assert (E : storeMemories h chunks w
              = match initializeChroma h w with
                | (Ok _, w0) => (Ok tt, w0)
                | (Err e, w0) => (Err e, w0)
                end).
  { unfold storeMemories. rewrite rethrow. unfold bind.
    destruct (initializeChroma h w) as [[c|e] w0]; [|reflexivity].
    destruct Hc as [-> | ->]; reflexivity. }
  rewrite E, initializeChroma_run.
  destruct (client w); [cbn; auto|].
  destruct (backend_fault h (now w)); cbn; repeat split; auto; discriminate.
Qed.

Lemma storeMemories_nothing_to_store_witness :
  trace (snd (storeMemories sample_host (Some []) (initial_world sample_store)))
  = [CallGetOrCreateCollection]
  /\ backend (snd (storeMemories sample_host (Some [])
                     (initial_world sample_store)))
     = sample_store.
Proof.
  destruct (storeMemories_nothing_to_store sample_host (Some [])
              (initial_world sample_store)) as [_ [Hb _]]; [right; reflexivity|].
  split; [reflexivity | exact Hb].
Defined.

(** X4. The embeddings of a batch are all requested before anything is
    written: when the embedding of any chunk fails, [storeMemories] throws
    that error, no [add] request has been sent and the collection is as it
    was. *)
Theorem storeMemories_embedding_failure :
  forall (h : Host) (chunks : list Chunk) (w w0 w1 : World) (c : bool)
         (e : JsError),
    initializeChroma h w = (Ok c, w0) ->
    mapM (fun chunk => generateEmbedding h (narrative chunk)) chunks w0
    = (Err e, w1) ->
    storeMemories h (Some chunks) w = (Err e, w1)
    /\ added_ids (trace w1) = added_ids (trace w)
    /\ backend w1 = backend w.
Proof.
  intros h chunks w w0 w1 c e Ei Ee.
  split; [|split].
  - unfold storeMemories. rewrite rethrow. unfold bind at 1. rewrite Ei.
    destruct chunks as [|ch chunks]; [discriminate Ee|].
    unfold bind at 1. rewrite Ee. reflexivity.
  - pose proof (embeddings_added h chunks w0) as Ha. rewrite Ee in Ha.
    pose proof (initializeChroma_added h w) as Hi. rewrite Ei in Hi.
    cbn [snd] in Ha, Hi. congruence.
  - pose proof (keeps_mapM backend
                  (fun chunk => generateEmbedding h (narrative chunk)) chunks
                  (fun x => keeps_generateEmbedding backend untraced_backend
                              h (narrative x)) w0) as Kb.
    rewrite Ee in Kb.
    pose proof (keeps_initializeChroma_backend h w) as Ki. rewrite Ei in Ki.
    cbn [snd] in Kb, Ki. congruence.
Qed.

Lemma storeMemories_embedding_failure_witness :
  fst (storeMemories no_embedding_host (Some [sample_chunk; sample_chunk])
         (initial_world sample_store))
  = Err api_error
  /\ backend (snd (storeMemories no_embedding_host
                     (Some [sample_chunk; sample_chunk])
                     (initial_world sample_store)))
     = sample_store.
Proof.
  destruct (storeMemories_embedding_failure no_embedding_host
              [sample_chunk; sample_chunk] (initial_world sample_store)
              (snd (initializeChroma no_embedding_host
                      (initial_world sample_store)))
              (snd (storeMemories no_embedding_host
                      (Some [sample_chunk; sample_chunk])
                      (initial_world sample_store)))
              true api_error) as [E [_ Hb]]; [reflexivity | reflexivity |].
  rewrite E. split; [reflexivity | exact Hb].
Defined.

Section Broken.

Variable h : Host.

Lemma initializeChroma_broken w :
  broken w -> initializeChroma h w = (Ok false, w).
Proof.
  intros [Hcl Hco]. rewrite initializeChroma_run, Hcl, Hco. reflexivity.
Qed.

Lemma broken_kept {A} (m : M A) w :
  keeps store_handle m -> broken w -> broken (snd (m w)).
Proof.
  intros K [Hcl Hco]. specialize (K w). injection K as K1 K2.
  split; congruence.
Qed.

Lemma keeps_embeddings_handle (chunks : list Chunk) :
  keeps store_handle
    (mapM (fun chunk => generateEmbedding h (narrative chunk)) chunks).
Proof.
  apply keeps_mapM. intros x.
  apply keeps_generateEmbedding, untraced_store_handle.
Qed.

Lemma searchMemories_broken query limit w :
  broken w ->
  exists w', searchMemories h query limit w = (Ok [], w') /\ broken w'.
Proof.
  intros Hb. pose proof Hb as [Hcl Hco].
  unfold searchMemories, try_catch, bind at 1.
  rewrite (initializeChroma_broken w Hb).
  unfold bind at 1.
  pose proof (keeps_generateEmbedding store_handle untraced_store_handle
                h query w) as K.
  destruct (generateEmbedding h query w) as [[v|e] w1]; cbn [snd] in K;
    injection K as Kcl Kco.
  - unfold bind at 1, collection_query, on_collection.
    rewrite Kco, Hco. eexists. split; [reflexivity|]. split; congruence.
  - eexists. split; [reflexivity|]. split; congruence.
Qed.

Lemma getAllMemories_broken w :
  broken w ->
  getAllMemories h w = (Ok [], w).
Proof.
  intros Hb. pose proof Hb as [Hcl Hco].
  unfold getAllMemories, try_catch, bind at 1.
  rewrite (initializeChroma_broken w Hb).
  unfold bind at 1, collection_count, on_collection. rewrite Hco.
  reflexivity.
Qed.

Lemma clearAllMemories_broken w :
  broken w ->
  clearAllMemories h w = (Err TypeError, w).
Proof.
  intros Hb. pose proof Hb as [Hcl Hco].
  unfold clearAllMemories. rewrite rethrow. unfold bind at 1.
  rewrite (initializeChroma_broken w Hb).
  unfold bind at 1, collection_count, on_collection. rewrite Hco.
  reflexivity.
Qed.

Lemma storeMemories_broken c cs w :
  broken w ->
  exists e w',
    storeMemories h (Some (c :: cs)) w = (Err e, w')
    /\ broken w' /\ backend w' = backend w.
Proof.
  intros Hb. pose proof Hb as [Hcl Hco].
  unfold storeMemories. rewrite rethrow. unfold bind at 1.
  rewrite (initializeChroma_broken w Hb).
  unfold bind at 1.
  pose proof (keeps_embeddings_handle (c :: cs) w) as K.
  pose proof (keeps_mapM backend
                (fun chunk => generateEmbedding h (narrative chunk)) (c :: cs)
                (fun x => keeps_generateEmbedding backend untraced_backend
                            h (narrative x)) w) as Kb.
  destruct (mapM _ (c :: cs) w) as [[es|e] w1]; cbn [snd] in K, Kb;
    injection K as Kcl Kco.
  - unfold bind at 1.
    destruct (generate_ids_from h (c :: cs) 0 w1)
      as [ids [w2 [Eg [_ [_ [_ [Kb2 [Kco2 [Kcl2 _]]]]]]]]].
    unfold generate_ids at 1, mapiM. rewrite Eg.
    unfold collection_add, on_collection.
    rewrite Kco2, Kco, Hco. eexists. eexists.
    split; [reflexivity|]. split; [split|]; congruence.
  - eexists. eexists. split; [reflexivity|]. split; [split|]; congruence.
Qed.

End Broken.

(** X5. A connection that failed is never retried.  When the first
    [getOrCreateCollection] of a process fails, [initializeChroma] throws
    and leaves [client] set with [collection] null; from then on, whatever
    the backend would answer, [initializeChroma] sends no request and
    returns null, [searchMemories] and [getAllMemories] return the empty
    array, [clearAllMemories] and [storeMemories] throw, the collection is
    not written and the handle stays as it is. *)
Theorem failed_connection_is_permanent :
  forall (h : Host) (w : World) (e : JsError),
    client w = false -> collection w = false ->
    backend_fault h (now w) = Some e ->
    let w1 := snd (initializeChroma h w) in
    fst (initializeChroma h w) = Err e
    /\ broken w1
    /\ forall (h' : Host) (w' : World),
         broken w' ->
         initializeChroma h' w' = (Ok false, w')
         /\ getAllMemories h' w' = (Ok [], w')
         /\ clearAllMemories h' w' = (Err TypeError, w')
         /\ (forall query limit,
               fst (searchMemories h' query limit w') = Ok []
               /\ broken (snd (searchMemories h' query limit w')))
         /\ (forall c cs,
               (exists e', fst (storeMemories h' (Some (c :: cs)) w') = Err e')
               /\ broken (snd (storeMemories h' (Some (c :: cs)) w'))
               /\ backend (snd (storeMemories h' (Some (c :: cs)) w'))
                  = backend w').
Proof.
  intros h w e Hcl Hco F w1. subst w1.
  rewrite initializeChroma_run, Hcl, F. cbn [fst snd].
  split; [reflexivity|]. split; [split; cbn; [reflexivity | exact Hco]|].
  intros h' w' Hb.
  split; [apply initializeChroma_broken; exact Hb|].
  split; [apply getAllMemories_broken; exact Hb|].
  split; [apply clearAllMemories_broken; exact Hb|].
  split.
  - intros query limit.
    destruct (searchMemories_broken h' query limit w' Hb) as [w2 [E Hb2]].
    rewrite E. split; [reflexivity | exact Hb2].
  - intros c cs.
    destruct (storeMemories_broken h' c cs w' Hb) as [e' [w2 [E [Hb2 Hk]]]].
    rewrite E. split; [exists e'; reflexivity|]. split; [exact Hb2 | exact Hk].
Qed.

Lemma failed_connection_is_permanent_witness :
  let w1 := snd (initializeChroma offline_host (initial_world sample_store)) in
  broken w1
  /\ getAllMemories sample_host w1 = (Ok [], w1)
  /\ clearAllMemories sample_host w1 = (Err TypeError, w1).
Proof.
  intros w1.
  destruct (failed_connection_is_permanent offline_host
              (initial_world sample_store) api_error)
    as [_ [Hb H]]; [reflexivity ..|].
  destruct (H sample_host w1 Hb) as [_ [Hg [Hc _]]].
  split; [exact Hb|]. split; assumption.
Defined.

(** X6. The memories returned by [searchMemories] are the documents of the
    first result list of the backend, in the order of the backend; the
    memory at each position carries the metadata and the distance the
    backend gave for that position. *)
Theorem searchMemories_backend_order :
  forall (h : Host) (query : jsstring) (limit : Z) (w w' : World)
         (results : list SearchResult),
    searchMemories h query limit w = (Ok results, w') ->
    results <> [] ->
    exists t v documents0 metadatas0 distances0,
      hd_error (q_documents (rank h t (backend w) v limit)) = Some documents0
      /\ hd_error (q_metadatas (rank h t (backend w) v limit))
         = Some metadatas0
      /\ hd_error (q_distances (rank h t (backend w) v limit))
         = Some distances0
      /\ map sr_narrative results = documents0
      /\ forall idx r,
           nth_error results idx = Some r ->
           sr_metadata r = nth idx metadatas0 []
           /\ sr_distance r = nth_error distances0 idx.
Proof.
  intros h query limit w w' results E Hne.
  unfold searchMemories, try_catch in E. unfold bind at 1 in E.
  pose proof (keeps_initializeChroma_backend h w) as Kb0.
  destruct (initializeChroma h w) as [[c|e] w0]; cbn [snd] in Kb0;
    [|injection E as <- _; congruence].
  unfold bind at 1 in E.
  pose proof (keeps_generateEmbedding backend untraced_backend h query w0)
    as Kb1.
  destruct (generateEmbedding h query w0) as [[v|e] w1]; cbn [snd] in Kb1;
    [|injection E as <- _; congruence].
  unfold bind at 1, collection_query, on_collection, backend_request in E.
  destruct (collection w1); [|injection E as <- _; congruence].
  destruct (backend_fault h (now w1)); [injection E as <- _; congruence|].
  cbv beta iota in E.
  rewrite Kb1, Kb0 in E.
  set (qr := rank h (now w1) (backend w) v limit) in *.
  destruct (q_documents qr) as [|documents0 rest] eqn:Ed;
    [injection E as <- _; congruence|].
  destruct (0 <? length documents0); [|injection E as <- _; congruence].
  exists (now w1), v, documents0.
  fold qr. rewrite Ed.
  unfold mapiM in E.
  destruct (q_metadatas qr) as [|metadatas0 ?] eqn:Em.
  { destruct documents0 as [|d ds]; [injection E as <- _; congruence|].
    rewrite mapiM_from_cons in E. unfold search_result at 1 in E.
    rewrite Em in E. injection E as <- _. congruence. }
  destruct (q_distances qr) as [|distances0 ?] eqn:Edi.
  { destruct documents0 as [|d ds]; [injection E as <- _; congruence|].
    rewrite mapiM_from_cons in E. unfold search_result at 1 in E.
    rewrite Em, Edi in E. injection E as <- _. congruence. }
  exists metadatas0, distances0.
  split; [reflexivity|]. split; [reflexivity|]. split; [reflexivity|].
  assert (G : forall docs idx w2 rs w3,
             mapiM_from (search_result qr) idx docs w2 = (Ok rs, w3) ->
             map sr_narrative rs = docs
             /\ forall k r, nth_error rs k = Some r ->
                            sr_metadata r = nth (idx + k) metadatas0 []
                            /\ sr_distance r
                               = nth_error distances0 (idx + k)).
  { clear E Hne results. induction docs as [|d docs IH];
      intros idx w2 rs w3 E.
    - injection E as <- _. split; [reflexivity|].
      intros [|k] r Hr; discriminate.
    - rewrite mapiM_from_cons in E. unfold search_result at 1 in E.
      rewrite Em, Edi in E. cbv [ret] in E.
      destruct (mapiM_from (search_result qr) (S idx) docs w2)
        as [[rs'|e] w4] eqn:E'; [|discriminate].
      injection E as <- _.
      destruct (IH _ _ _ _ E') as [Hn Hk].
      split; [cbn; f_equal; exact Hn|].
      intros [|k] r Hr.
      + injection Hr as <-. cbn. rewrite Nat.add_0_r. auto.
      + cbn in Hr. destruct (Hk k r Hr) as [H1 H2].
        replace (idx + S k) with (S idx + k) by lia. auto. }
  destruct (mapiM_from (search_result qr) 0 documents0 _)
    as [[rs|e] w3] eqn:Eq; [|injection E as <- _; congruence].
  injection E as <- _.
  destruct (G _ _ _ _ _ Eq) as [Hn Hk].
  split; [exact Hn | exact Hk].
Qed.

Lemma searchMemories_backend_order_witness :
  map sr_narrative
    (value_or []
       (searchMemories sample_host (lit "Tokyo") 1
          (initial_world sample_store)))
  = [narrative sample_chunk].
Proof.
  destruct (searchMemories_backend_order sample_host (lit "Tokyo") 1
              (initial_world sample_store)
              (snd (searchMemories sample_host (lit "Tokyo") 1
                      (initial_world sample_store)))
              (value_or []
                 (searchMemories sample_host (lit "Tokyo") 1
                    (initial_world sample_store))))
    as [t [v [d0 [m0 [di0 [_ [_ [_ [Hn _]]]]]]]]];
    [vm_compute; reflexivity | vm_compute; discriminate |].
  vm_compute. reflexivity.
Defined.

(** X7. [searchMemories] and [getAllMemories] only read: neither changes the
    content of the collection, the conversation cache or the rolling
    summary, whatever the host answers. *)
Theorem search_and_enumeration_read_only :
  forall (h : Host) (query : jsstring) (limit : Z) (w : World),
    backend (snd (searchMemories h query limit w)) = backend w
    /\ session (snd (searchMemories h query limit w)) = session w
    /\ backend (snd (getAllMemories h w)) = backend w
    /\ session (snd (getAllMemories h w)) = session w.
Proof.
  intros h query limit w.
  split; [apply keeps_searchMemories_backend|].
  split; [apply frames_searchMemories|].
  split; [apply keeps_getAllMemories_backend|].
  apply keeps_getAllMemories_session.
Qed.

(** ** More on the Fact Extraction Pipeline *)

Section Fragments.

Lemma ends_with_word_last s :
  ends_with_word s = true ->
  exists s0 d, s = s0 ++ [d] /\ is_space d = false.
Proof.
  induction s as [|c s IH]; [discriminate|].
  destruct s as [|c' s'].
  - cbn. intros H. exists [], c. split; [reflexivity|].
    destruct (is_space c); [discriminate | reflexivity].
  - intros H. destruct (IH H) as [s0 [d [E Hd]]].
    exists (c :: s0), d. rewrite E. split; [reflexivity | exact Hd].
Qed.

(** [trim] leaves a trimmed string as it is. *)
Lemma trimmed_fixed s : trimmed s -> trim s = s.
Proof.
  destruct s as [|c s]; [reflexivity|].
  intros [Hc He]. unfold trim.
  cbn [dropWhile]. rewrite Hc.
  destruct (ends_with_word_last _ He) as [s0 [d [E Hd]]].
  rewrite E, rev_app_distr. cbn [rev app dropWhile]. rewrite Hd.
  change (d :: rev s0) with (rev [d] ++ rev s0).
  rewrite <- rev_app_distr, rev_involutive. reflexivity.
Qed.

Lemma trim_trim s : trim (trim s) = trim s.
Proof. apply trimmed_fixed, trim_trimmed. Qed.

Lemma trim_segment s : exists pre post, s = pre ++ trim s ++ post.
Proof.
  destruct (dropWhile_suffix is_space s) as [pre [E1 _]].
  destruct (dropWhile_suffix is_space (rev (dropWhile is_space s)))
    as [post [E2 _]].
  exists pre, (rev post). unfold trim.
  rewrite <- rev_app_distr, <- E2, rev_involutive. exact E1.
Qed.

Lemma trim_In x s : In x (trim s) -> In x s.
Proof.
  intros H. destruct (trim_segment s) as [pre [post E]]. rewrite E.
  apply in_or_app. right. apply in_or_app. left. exact H.
Qed.

Lemma occurrences_app d s t :
  occurrences d (s ++ t) = occurrences d s + occurrences d t.
Proof. unfold occurrences. rewrite filter_app, length_app. reflexivity. Qed.

Lemma trim_occurrences d s : occurrences d (trim s) <= occurrences d s.
Proof.
  destruct (trim_segment s) as [pre [post E]]. rewrite E at 2.
  rewrite !occurrences_app. lia.
Qed.

Lemma split_char_from_no_separator d s :
  forall cur piece,
    ~ In d cur -> In piece (split_char_from d cur s) -> ~ In d piece.
Proof.
  induction s as [|c s IH]; intros cur piece Hcur Hp; cbn in Hp.
  - destruct Hp as [<-|[]]. exact Hcur.
  - destruct (N.eqb_spec c d) as [->|Hcd].
    + destruct Hp as [<-|Hp]; [exact Hcur|].
      apply (IH [] piece); [intros [] | exact Hp].
    + apply (IH (cur ++ [c]) piece); [|exact Hp].
      intros Hin. apply in_app_or in Hin.
      destruct Hin as [Hin|[Hin|[]]]; [exact (Hcur Hin) | exact (Hcd Hin)].
Qed.

Lemma split_char_from_length d s :
  forall cur, length (split_char_from d cur s) = S (occurrences d s).
Proof.
  unfold occurrences.
  induction s as [|c s IH]; intros cur; [reflexivity|].
  cbn [split_char_from filter].
  rewrite (N.eqb_sym d c).
  destruct (c =? d)%N; cbn [length]; rewrite IH; reflexivity.
Qed.

Lemma split_ws_from_no_space s :
  forall cur in_sep piece,
    Forall (fun c => is_space c = false) cur ->
    In piece (split_ws_from cur in_sep s) ->
    Forall (fun c => is_space c = false) piece.
Proof.
  induction s as [|c s IH]; intros cur in_sep piece Hcur Hp; cbn in Hp.
  - destruct Hp as [<-|[]]. exact Hcur.
  - destruct (is_space c) eqn:Hc.
    + destruct in_sep.
      * apply (IH [] true piece); [constructor | exact Hp].
      * destruct Hp as [<-|Hp]; [exact Hcur|].
        apply (IH [] true piece); [constructor | exact Hp].
    + apply (IH (cur ++ [c]) false piece); [|exact Hp].
      apply Forall_app. split; [exact Hcur|]. constructor; [exact Hc|].
      constructor.
Qed.

Lemma firstn_In {A} n (l : list A) x : In x (firstn n l) -> In x l.
Proof.
  revert l. induction n as [|n IH]; intros [|y l] H; try contradiction.
  cbn in H. destruct H as [->|H]; [left; reflexivity|].
  right. apply IH. exact H.
Qed.

Lemma chunkTexts_fragments text f :
  In f (chunkTexts text) ->
  trimmed f /\ f <> [] /\ ~ In 124%N f.
Proof.
  intros Hf. pose proof (chunkTexts_in_bounds text f Hf) as [Hne _].
  unfold chunkTexts in Hf.
  apply filter_In in Hf. destruct Hf as [Hf _].
  apply filter_In in Hf. destruct Hf as [Hf _].
  apply in_map_iff in Hf. destruct Hf as [g [<- Hg]].
  split; [apply trim_trimmed|]. split; [exact Hne|].
  intros Hin. apply trim_In in Hin.
  exact (split_char_from_no_separator 124 text [] g (fun x => x) Hg Hin).
Qed.

Lemma chunkTexts_length text :
  length (chunkTexts text) <= S (occurrences 124 text).
Proof.
  unfold chunkTexts.
  etransitivity; [apply filter_length_le|].
  etransitivity; [apply filter_length_le|].
  rewrite length_map. unfold split_char.
  rewrite split_char_from_length. lia.
Qed.

End Fragments.

(** X8. The narrative of every chunk returned by [processConversations] is
    trimmed, not empty, and free of the bar that separates the fragments. *)
Theorem processConversations_narratives_clean :
  forall (h : Host) (summaries : option (list jsstring)) (w w' : World)
         (chunks : list Chunk),
    processConversations h summaries w = (Ok chunks, w') ->
    Forall (fun c => narrative c <> []
                     /\ trim (narrative c) = narrative c
                     /\ ~ In 124%N (narrative c)) chunks.
Proof.
  intros h summaries w w' chunks E.
  apply Forall_forall. intros c Hc.
  destruct (processConversations_ok h _ _ _ _ E)
    as [[-> _]|[ss [text [_ [_ [_ [Hn _]]]]]]]; [destruct Hc|].
  assert (Hin : In (narrative c) (chunkTexts (trim text))).
  { rewrite <- Hn. apply in_map. exact Hc. }
  destruct (chunkTexts_fragments _ _ Hin) as [Ht [Hne Hb]].
  split; [exact Hne|]. split; [|exact Hb].
  apply trimmed_fixed. exact Ht.
Qed.

Lemma processConversations_narratives_clean_witness :
  Forall (fun c => narrative c <> []
                   /\ trim (narrative c) = narrative c
                   /\ ~ In 124%N (narrative c)) sample_chunks.
Proof.
  apply (processConversations_narratives_clean sample_host
           (Some sample_summaries) (initial_world [])
           (snd (processConversations sample_host
                   (Some sample_summaries) (initial_world [])))).
  vm_compute. reflexivity.
Defined.

(** X9. [processConversations] returns at most one chunk more than there are
    bars in the text of the Generation Service. *)
Theorem processConversations_chunk_count :
  forall (h : Host) (summaries : list jsstring) (w w' : World)
         (chunks : list Chunk) (text : jsstring),
    processConversations h (Some summaries) w = (Ok chunks, w') ->
    complete h (now w) (extraction_request summaries) = Ok text ->
    length chunks <= S (occurrences 124 text).
Proof.
  intros h summaries w w' chunks text E Ec.
  destruct (processConversations_ok h _ _ _ _ E)
    as [[-> _]|[ss [text' [Hs [_ [Ec' [Hn _]]]]]]]; [cbn; lia|].
  injection Hs as <-. rewrite Ec in Ec'. injection Ec' as <-.
  rewrite <- (length_map narrative), Hn.
  etransitivity; [apply chunkTexts_length|].
  pose proof (trim_occurrences 124 text). lia.
Qed.

Lemma processConversations_chunk_count_witness :
  length sample_chunks <= S (occurrences 124 sample_facts).
Proof.
  apply (processConversations_chunk_count sample_host sample_summaries
           (initial_world [])
           (snd (processConversations sample_host
                   (Some sample_summaries) (initial_world [])))).
  - vm_compute. reflexivity.
  - reflexivity.
Defined.

Section ExtractionRequests.

Variable h : Host.

Lemma mapM_make_chunk_trace l :
  forall w chunks w',
    mapM (make_chunk h) l w = (Ok chunks, w') ->
    length chunks = length l
    /\ trace w' = repeat CallClock (length l) ++ trace w.
Proof.
  induction l as [|x l IH]; intros w chunks w' E.
  - injection E as <- <-. split; reflexivity.
  - rewrite mapM_cons in E.
    change (make_chunk h x w) with
      (Ok {| narrative := x;
             metadata :=
               chunk_metadata h (toISOString h (clock h (now w))) x |},
       record_call CallClock w) in E.
    cbv beta iota in E.
    destruct (mapM (make_chunk h) l (record_call CallClock w))
      as [[cs|e] w1] eqn:E1; [|discriminate].
    injection E as <- <-.
    destruct (IH _ _ _ E1) as [Hl Ht].
    split; [cbn; f_equal; exact Hl|].
    rewrite Ht. cbn [trace record_call length repeat].
    rewrite (repeat_cons (length l) CallClock), <- app_assoc. reflexivity.
Qed.

End ExtractionRequests.

(** X10. Given summaries, [processConversations] sends exactly one request to
    the Generation Service; when it fails the error is thrown and nothing
    else happens; when it answers the only other requests are one clock
    reading for each chunk returned.  The vector store is not touched. *)
Theorem processConversations_requests :
  forall (h : Host) (s : jsstring) (ss : list jsstring) (w w' : World)
         (r : result (list Chunk)),
    processConversations h (Some (s :: ss)) w = (r, w') ->
    (forall e,
        complete h (now w) (extraction_request (s :: ss)) = Err e ->
        r = Err e
        /\ trace w' = CallComplete (extraction_request (s :: ss)) :: trace w)
    /\ (forall chunks,
          r = Ok chunks ->
          trace w'
          = repeat CallClock (length chunks)
            ++ CallComplete (extraction_request (s :: ss)) :: trace w)
    /\ backend w' = backend w
    /\ client w' = client w
    /\ collection w' = collection w.
Proof.
  intros h s ss w w' r E.
  pose proof (keeps_processConversations backend untraced_backend h
                (Some (s :: ss)) w) as Kb.
  pose proof (keeps_processConversations store_handle untraced_store_handle h
                (Some (s :: ss)) w) as Kh.
  rewrite E in Kb, Kh. cbn [snd] in Kb, Kh. injection Kh as Kcl Kco.
  unfold processConversations in E. rewrite rethrow in E.
  unfold bind, chat_completions_create in E.
  destruct (complete h (now w) (extraction_request (s :: ss)))
    as [text|e0] eqn:Ec.
  - split; [intros e He; discriminate|].
    split; [|auto].
    intros chunks ->.
    destruct (mapM (make_chunk h) (chunkTexts (trim text)) _)
      as [[cs|e] w1] eqn:Em; [|discriminate].
    injection E as <- <-.
    destruct (mapM_make_chunk_trace h _ _ _ _ Em) as [Hl Ht].
    rewrite Ht, Hl. reflexivity.
  - injection E as <- <-.
    split; [intros e He; injection He as <-; split; reflexivity|].
    split; [intros chunks Hc; discriminate | auto].
Qed.

Lemma processConversations_requests_witness :
  trace (snd (processConversations sample_host (Some sample_summaries)
                (initial_world [])))
  = [CallClock; CallClock;
     CallComplete (extraction_request sample_summaries)].
Proof.
  destruct (processConversations_requests sample_host
              (lit "User is Brazilian, recently moved to Tokyo, misses home food.")
              [lit "User likes running and runs every week."]
              (initial_world [])
              (snd (processConversations sample_host (Some sample_summaries)
                      (initial_world [])))
              (Ok sample_chunks)) as [_ [H _]]; [vm_compute; reflexivity|].
  exact (H sample_chunks eq_refl).
Defined.

(** X11. The topics of a narrative are at most three; each is a
    whitespace-separated word of the lower-cased narrative, longer than
    five code units and free of white space. *)
Theorem topics_of_bounds :
  forall (h : Host) (narrative : jsstring),
    length (topics_of h narrative) <= 3
    /\ Forall (fun topic =>
                 In topic (split_ws (toLowerCase h narrative))
                 /\ 5 < length topic
                 /\ Forall (fun c => is_space c = false) topic)
         (topics_of h narrative).
Proof.
  intros h narrative. unfold topics_of.
  split; [apply firstn_le_length|].
  apply Forall_forall. intros topic Ht.
  apply firstn_In in Ht. apply filter_In in Ht. destruct Ht as [Hin Hl].
  split; [exact Hin|]. split; [apply Nat.ltb_lt; exact Hl|].
  exact (split_ws_from_no_space _ [] false topic (Forall_nil _) Hin).
Qed.

(** ** More on the console application *)

Section ConsoleMore.

Variable h : Host.

Lemma slice_last_app {A} n (older recent : list A) :
  n <= length recent ->
  slice_last n (older ++ recent) = slice_last n recent.
Proof.
  intros Hn. unfold slice_last.
  rewrite length_app, skipn_app.
  replace (length older + length recent - n)
    with (length older + (length recent - n)) by lia.
  rewrite skipn_all2 by lia.
  replace (length older + (length recent - n) - length older)
    with (length recent - n) by lia.
  reflexivity.
Qed.

Lemma keeps_update {X} (proj : World -> X) f :
  (forall w, proj (f w) = proj w) -> keeps proj (update f).
Proof. intros Hf w. apply Hf. Qed.

Lemma keeps_handleChat_backend input : keeps backend (handleChat h input).
Proof.
  unfold handleChat.
  apply keeps_try_catch; [|intros e; apply keeps_ret].
  apply keeps_bind; [apply keeps_get_world|]. intros w0.
  apply keeps_bind; [apply keeps_reformulateQuery, untraced_backend|].
  intros q.
  apply keeps_bind; [apply keeps_searchMemories_backend|]. intros mems.
  apply keeps_bind; [apply keeps_get_world|]. intros w1.
  apply keeps_bind; [apply keeps_chat_completions_create, untraced_backend|].
  intros reply.
  apply keeps_bind; [apply keeps_update; reflexivity|]. intros _.
  apply keeps_bind; [apply keeps_get_world|]. intros w2.
  destruct (CACHE_LIMIT <=? length (conversationCache w2)); [|apply keeps_ret].
  apply keeps_bind; [apply keeps_summarizeConversation, untraced_backend|].
  intros s.
  apply keeps_bind; [apply keeps_update; reflexivity|]. intros _.
  apply keeps_bind; [apply keeps_update; reflexivity|]. intros _.
  apply keeps_update; reflexivity.
Qed.

(** How a turn ends, with the request that decided it. *)
Lemma handleChat_turn input w r w' :
  handleChat h input w = (r, w') ->
  r = Ok tt
  /\ exists memories t,
       (exists e,
           complete h t (chat_request memories (conversationCache w) input)
           = Err e
           /\ session w' = session w)
       \/ (exists reply,
              complete h t (chat_request memories (conversationCache w) input)
              = Ok reply
              /\ let cache' :=
                   conversationCache w
                   ++ [ {| role := user; content := input |};
                        {| role := assistant; content := reply |} ] in
                 (length cache' < CACHE_LIMIT
                  /\ session w' = (cache', currentSummary w))
                 \/ (CACHE_LIMIT <= length cache'
                     /\ ((exists e,
                             complete h (S t) (summary_request cache') = Err e
                             /\ session w' = (cache', currentSummary w))
                         \/ (exists s,
                                complete h (S t) (summary_request cache')
                                = Ok s
                                /\ session w'
                                   = ([seeded_turn
                                         (merge_summary (currentSummary w) s)],
                                      merge_summary (currentSummary w) s))))).
Proof.
  intros E. unfold handleChat, try_catch in E.
  unfold bind at 1 in E. unfold get_world at 1 in E. cbv beta iota in E.
  unfold bind at 1 in E.
  destruct (reformulateQuery_run h input (conversationCache w) w)
    as [q [w1 [Er Hs1]]].
  rewrite Er in E. cbv beta iota in E.
  unfold bind at 1 in E.
  destruct (searchMemories_run h q 3 w1) as [mems [w2 [Es Hs2]]].
  rewrite Es in E. cbv beta iota in E.
  unfold bind at 1 in E. unfold get_world at 1 in E. cbv beta iota in E.
  unfold bind at 1 in E. unfold chat_completions_create at 1 in E.
  assert (Hs : session w2 = session w) by congruence.
  injection Hs as Hc2 Hsum2.
  rewrite Hc2 in E.
  destruct (complete h (now w2)
              (chat_request mems (conversationCache w) input))
    as [reply|e] eqn:Ec.
  - cbv beta iota in E.
    unfold bind at 1 in E. unfold update at 1 in E. cbv beta iota in E.
    unfold bind at 1 in E. unfold get_world at 1 in E. cbv beta iota in E.
    cbn [conversationCache set_conversationCache record_call] in E.
    rewrite Hc2 in E.
    destruct (CACHE_LIMIT <=?
              length (conversationCache w
                      ++ [ {| role := user; content := input |};
                           {| role := assistant; content := reply |} ]))
      eqn:Hl.
    + apply Nat.leb_le in Hl.
      unfold bind at 1 in E. rewrite summarizeConversation_run in E.
      cbn [trace set_conversationCache record_call length] in E.
      destruct (complete h (S (now w2)) (summary_request _)) as [s|e] eqn:Esum.
      * cbv [bind update ret] in E. injection E as <- <-.
        split; [reflexivity|]. exists mems, (now w2). right. exists reply.
        split; [exact Ec|]. cbv zeta. right. split; [exact Hl|].
        right. exists s. split; [exact Esum|].
        unfold session. cbn. rewrite Hsum2. reflexivity.
      * cbv [ret] in E. injection E as <- <-.
        split; [reflexivity|]. exists mems, (now w2). right. exists reply.
        split; [exact Ec|]. cbv zeta. right. split; [exact Hl|].
        left. exists e. split; [exact Esum|].
        unfold session. cbn. rewrite Hsum2. reflexivity.
    + apply Nat.leb_gt in Hl.
      cbv [ret] in E. injection E as <- <-.
      split; [reflexivity|]. exists mems, (now w2). right. exists reply.
      split; [exact Ec|]. cbv zeta. left. split; [exact Hl|].
      unfold session. cbn. rewrite Hsum2. reflexivity.
  - cbv [ret] in E. injection E as <- <-.
    split; [reflexivity|]. exists mems, (now w2). left. exists e.
    split; [exact Ec|]. unfold session. cbn. congruence.
Qed.

End ConsoleMore.

(** X12. Only the last four turns of the context reach the Generation Service:
    [reformulateQuery] behaves the same whatever turns come before them. *)
Theorem reformulateQuery_last_four :
  forall (h : Host) (input : jsstring) (older recent : list Message)
         (w : World),
    4 <= length recent ->
    reformulateQuery h input (older ++ recent) w
    = reformulateQuery h input recent w.
Proof.
  intros h input older recent w Hl.
  unfold reformulateQuery, reformulation_request.
  rewrite (slice_last_app 4 older recent Hl). reflexivity.
Qed.

Lemma reformulateQuery_last_four_witness :
  let recent :=
    [ {| role := user; content := lit "I moved to Tokyo." |};
      {| role := assistant; content := lit "How is it?" |};
      {| role := user; content := lit "I miss the food." |};
      {| role := assistant; content := lit "Which food?" |} ] in
  reformulateQuery sample_host (lit "feijoada")
    ({| role := user; content := lit "Hi!" |} :: recent) (initial_world [])
  = reformulateQuery sample_host (lit "feijoada") recent (initial_world []).
Proof.
  intros recent.
  apply (reformulateQuery_last_four sample_host (lit "feijoada")
           [ {| role := user; content := lit "Hi!" |} ] recent).
  cbn. lia.
Defined.

(** X13. [handleChat] never throws and never writes to the collection.  When
    the chat request to the Generation Service fails, the turn is not
    recorded: the cache and the rolling summary are as before. *)
Theorem handleChat_failed_turn :
  forall (h : Host) (input : jsstring) (w : World),
    fst (handleChat h input w) = Ok tt
    /\ backend (snd (handleChat h input w)) = backend w
    /\ ((forall t memories,
            exists e,
              complete h t
                (chat_request memories (conversationCache w) input)
              = Err e) ->
        session (snd (handleChat h input w)) = session w).
Proof.
  intros h input w.
  destruct (handleChat_turn h input w _ _
              (surjective_pairing (handleChat h input w)))
    as [Hr [mems [t [[e [Ec Hs]]|[reply [Ec _]]]]]].
  - split; [exact Hr|]. split; [apply keeps_handleChat_backend|].
    intros _. exact Hs.
  - split; [exact Hr|]. split; [apply keeps_handleChat_backend|].
    intros Hdown. destruct (Hdown t mems) as [e He]. congruence.
Qed.

Lemma handleChat_failed_turn_witness :
  session (snd (handleChat offline_host (lit "Hi!") sample_world))
  = session sample_world.
Proof.
  destruct (handleChat_failed_turn offline_host (lit "Hi!") sample_world)
    as [_ [_ H]].
  apply H. intros t memories. exists api_error. reflexivity.
Defined.



(** X15. With no rolling summary and at most one turn in the cache,
    [processSummaries] has nothing to process: it sends no request and
    changes nothing. *)
Theorem processSummaries_nothing_to_process :
  forall (h : Host) (w : World),
    currentSummary w = [] ->
    length (conversationCache w) <= 1 ->
    processSummaries h w = (Ok tt, w).
Proof.
  intros h w Hs Hc.
  unfold processSummaries, bind at 1, get_world at 1.
  rewrite Hs. cbn [truthy length Nat.eqb negb andb].
  destruct (conversationCache w) as [|m [|m' l]] eqn:Ec;
    [reflexivity| |cbn in Hc; lia].
  cbn [length Nat.eqb].
  unfold try_catch, contextsToProcess, bind, get_world.
  rewrite Hs, Ec. reflexivity.
Qed.

Lemma processSummaries_nothing_to_process_witness :
  let w :=
    set_conversationCache [ {| role := user; content := lit "Hi!" |} ]
      (initial_world sample_store) in
  processSummaries offline_host w = (Ok tt, w).
Proof.
  intros w.
  apply (processSummaries_nothing_to_process offline_host w);
    [reflexivity | cbn; lia].
Defined.



(** ** The command loop *)

Section CommandLoopFacts.

Variable h : Host.

Lemma jsstring_eqb_eq s : forall t, jsstring_eqb s t = true -> s = t.
Proof.
  induction s as [|c s IH]; intros [|d t] E; try discriminate;
    [reflexivity|].
  cbn in E. apply andb_true_iff in E. destruct E as [Ec Es].
  apply N.eqb_eq in Ec. subst d. f_equal. apply IH. exact Es.
Qed.

Lemma jsstring_eqb_neq s t : s <> t -> jsstring_eqb s t = false.
Proof.
  intros Hne. destruct (jsstring_eqb s t) eqn:E; [|reflexivity].
  apply jsstring_eqb_eq in E. contradiction.
Qed.

Lemma processSummaries_total w : fst (processSummaries h w) = Ok tt.
Proof.
  unfold processSummaries, bind at 1, get_world at 1.
  destruct (negb (truthy (currentSummary w))
            && (length (conversationCache w) =? 0)); [reflexivity|].
  unfold try_catch.
  match goal with
  | |- context [match ?m w with _ => _ end] =>
      destruct (m w) as [[[]|e] w']
  end; reflexivity.
Qed.

Lemma handleChat_total input w : fst (handleChat h input w) = Ok tt.
Proof.
  unfold handleChat, try_catch.
  match goal with
  | |- context [match ?m w with _ => _ end] =>
      destruct (m w) as [[[]|e] w']
  end; reflexivity.
Qed.

End CommandLoopFacts.

(** X17. White space around a line, and around the answer to the confirmation
    question, makes no difference to [processInput]. *)
Theorem processInput_ignores_surrounding_space :
  forall (h : Host) (input confirmation : jsstring),
    processInput h input confirmation
    = processInput h (trim input) (trim confirmation).
Proof.
  intros h input confirmation. unfold processInput.
  rewrite !trim_trim. reflexivity.
Qed.

(** X18. The [clear] command deletes nothing without its confirmation: unless
    the answer, trimmed and lower-cased, is [confirm], no request is sent
    and the world is unchanged.  With the confirmation the loop goes on in
    the world left by [clearAllMemories], also when clearing throws. *)
Theorem processInput_clear_needs_confirmation :
  forall (h : Host) (input confirmation : jsstring) (w : World),
    trim input <> [] ->
    toLowerCase h (trim input) = lit "clear" ->
    (toLowerCase h (trim confirmation) <> lit "confirm" ->
     processInput h input confirmation w = (Ok KeepGoing, w))
    /\ (toLowerCase h (trim confirmation) = lit "confirm" ->
        processInput h input confirmation w
        = (Ok KeepGoing, snd (clearAllMemories h w))).
Proof.
  intros h input confirmation w Hne Hcmd.
  unfold processInput.
  destruct (trim input) as [|c s] eqn:Et; [contradiction|].
  cbn [truthy length Nat.eqb negb]. rewrite Hcmd.
  change (jsstring_eqb (lit "clear") (lit "exit")) with false.
  change (jsstring_eqb (lit "clear") (lit "quit")) with false.
  change (jsstring_eqb (lit "clear") (lit "help")) with false.
  change (jsstring_eqb (lit "clear") (lit "cache")) with false.
  change (jsstring_eqb (lit "clear") (lit "summaries")) with false.
  change (jsstring_eqb (lit "clear") (lit "memories")) with false.
  change (jsstring_eqb (lit "clear") (lit "process")) with false.
  change (jsstring_eqb (lit "clear") (lit "clear")) with true.
  cbv beta iota delta [orb].
  split.
  - intros Hc. rewrite (jsstring_eqb_neq _ _ Hc). reflexivity.
  - intros Hc. rewrite Hc, jsstring_eqb_refl.
    unfold try_catch, bind.
    destruct (clearAllMemories h w) as [[n|e] w']; reflexivity.
Qed.

Lemma processInput_clear_needs_confirmation_witness :
  processInput sample_host (lit " Clear ") (lit "yes")
    (initial_world sample_store)
  = (Ok KeepGoing, initial_world sample_store)
  /\ backend (snd (processInput sample_host (lit " Clear ") (lit "CONFIRM")
                     (initial_world sample_store)))
     = [].
Proof.
  destruct (processInput_clear_needs_confirmation sample_host (lit " Clear ")
              (lit "yes") (initial_world sample_store))
    as [H _]; [vm_compute; discriminate | vm_compute; reflexivity |].
  split; [apply H; vm_compute; discriminate|].
  vm_compute. reflexivity.
Defined.

(** X19. [processInput] never throws, and it ends the process exactly for the
    lines that are, once trimmed and lower-cased, [exit] or [quit]; it
    then leaves the world as it was. *)
Theorem processInput_exit :
  forall (h : Host) (input confirmation : jsstring) (w : World),
    exists next w',
      processInput h input confirmation w = (Ok next, w')
      /\ (next = ProcessExit <->
          trim input <> []
          /\ (toLowerCase h (trim input) = lit "exit"
              \/ toLowerCase h (trim input) = lit "quit"))
      /\ (next = ProcessExit -> w' = w).
Proof.
  intros h input confirmation w. unfold processInput.
  destruct (trim input) as [|c s] eqn:Et.
  { exists KeepGoing, w. split; [reflexivity|].
    split; [|discriminate]. split; [discriminate|]. intros [H _]. congruence. }
  cbn [truthy length Nat.eqb negb].
  set (command := toLowerCase h (c :: s)).
  destruct (jsstring_eqb command (lit "exit")) eqn:E1.
  { exists ProcessExit, w. apply jsstring_eqb_eq in E1.
    split; [reflexivity|]. split; [|reflexivity].
    split; [intros _; split; [discriminate | left; exact E1] | reflexivity]. }
  destruct (jsstring_eqb command (lit "quit")) eqn:E2.
  { exists ProcessExit, w. apply jsstring_eqb_eq in E2.
    split; [reflexivity|]. split; [|reflexivity].
    split; [intros _; split; [discriminate | right; exact E2] | reflexivity]. }
  cbn [orb].
  assert (Hno : KeepGoing = ProcessExit <->
                (c :: s <> []
                 /\ (command = lit "exit" \/ command = lit "quit"))).
  { split; [discriminate|].
    intros [_ [H|H]]; rewrite H, jsstring_eqb_refl in *; discriminate. }
  assert (Hk : forall w', exists next w'',
               (Ok KeepGoing, w') = (@Ok Next next, w'')
               /\ (next = ProcessExit <->
                   c :: s <> []
                   /\ (command = lit "exit" \/ command = lit "quit"))
               /\ (next = ProcessExit -> w'' = w)).
  { intros w'. exists KeepGoing, w'. split; [reflexivity|].
    split; [exact Hno | discriminate]. }
  destruct (jsstring_eqb command (lit "help")); [apply Hk|].
  destruct (jsstring_eqb command (lit "cache")); [apply Hk|].
  destruct (jsstring_eqb command (lit "summaries")); [apply Hk|].
  destruct (jsstring_eqb command (lit "memories")).
  { unfold showMemories, bind.
    destruct (getAllMemories_total h w) as [l Hl].
    destruct (getAllMemories h w) as [r w']. cbn in Hl. subst r.
    apply Hk. }
  destruct (jsstring_eqb command (lit "process")).
  { unfold bind. pose proof (processSummaries_total h w) as Hp.
    destruct (processSummaries h w) as [r w']. cbn in Hp. subst r.
    apply Hk. }
  destruct (jsstring_eqb command (lit "clear")).
  { destruct (jsstring_eqb (toLowerCase h (trim confirmation))
                (lit "confirm")); [|apply Hk].
    unfold try_catch, bind.
    destruct (clearAllMemories h w) as [[n|e] w']; apply Hk. }
  unfold bind. pose proof (handleChat_total h (c :: s) w) as Hp.
  destruct (handleChat h (c :: s) w) as [r w']. cbn in Hp. subst r.
  apply Hk.
Qed.

Lemma processInput_exit_witness :
  processInput offline_host (lit "  QUIT ") [] sample_world
  = (Ok ProcessExit, sample_world).
Proof.
  destruct (processInput_exit offline_host (lit "  QUIT ") [] sample_world)
    as [next [w' [E [[_ H] Hw]]]].
  assert (Hn : next = ProcessExit).
  { apply H. split; [vm_compute; discriminate | right; reflexivity]. }
  rewrite E, Hn, (Hw Hn). reflexivity.
Defined.

(** X20. Only [process] and a confirmed [clear] write to the collection, and
    only [process] and a chat line change the cache or the rolling
    summary: every other line leaves them as they were. *)
Theorem processInput_what_lines_change :
  forall (h : Host) (input confirmation : jsstring) (w : World),
    let command := toLowerCase h (trim input) in
    let w' := snd (processInput h input confirmation w) in
    (command <> lit "process" -> command <> lit "clear" ->
     backend w' = backend w)
    /\ (In command
          [lit "exit"; lit "quit"; lit "help"; lit "cache"; lit "summaries";
           lit "memories"; lit "clear"] ->
        session w' = session w).
Proof.
  intros h input confirmation w command w'. subst command w'.
  unfold processInput.
  destruct (trim input) as [|c s] eqn:Et; [split; reflexivity|].
  cbn [truthy length Nat.eqb negb].
  set (command := toLowerCase h (c :: s)).
  destruct (jsstring_eqb command (lit "exit")) eqn:E1;
    [split; reflexivity|].
  destruct (jsstring_eqb command (lit "quit")) eqn:E2;
    [split; reflexivity|].
  cbn [orb].
  destruct (jsstring_eqb command (lit "help")) eqn:E3; [split; reflexivity|].
  destruct (jsstring_eqb command (lit "cache")) eqn:E4; [split; reflexivity|].
  destruct (jsstring_eqb command (lit "summaries")) eqn:E5;
    [split; reflexivity|].
  destruct (jsstring_eqb command (lit "memories")) eqn:E6.
  { split; intros.
    - apply (keeps_bind backend); [|intros; apply keeps_ret].
      unfold showMemories.
      apply keeps_bind; [apply keeps_getAllMemories_backend|].
      intros; apply keeps_ret.
    - apply (keeps_bind session); [|intros; apply keeps_ret].
      unfold showMemories.
      apply keeps_bind; [apply keeps_getAllMemories_session|].
      intros; apply keeps_ret. }
  destruct (jsstring_eqb command (lit "process")) eqn:E7.
  { apply jsstring_eqb_eq in E7. split.
    - intros Hp. contradiction.
    - intros Hin. rewrite E7 in Hin. cbn in Hin.
      repeat (destruct Hin as [Hin|Hin]; [discriminate Hin|]).
      destruct Hin. }
  destruct (jsstring_eqb command (lit "clear")) eqn:E8.
  { apply jsstring_eqb_eq in E8. split; [intros _ Hc; contradiction|].
    intros _.
    destruct (jsstring_eqb (toLowerCase h (trim confirmation))
                (lit "confirm")); [|reflexivity].
    apply (keeps_try_catch session); [|intros; apply keeps_ret].
    apply keeps_bind; [apply keeps_clearAllMemories_session|].
    intros; apply keeps_ret. }
  split.
  - intros _ _.
    apply (keeps_bind backend); [|intros; apply keeps_ret].
    apply keeps_handleChat_backend.
  - intros Hin. cbn in Hin.
    repeat (destruct Hin as [Hin|Hin];
            [rewrite <- Hin, jsstring_eqb_refl in *; discriminate|]).
    destruct Hin.
Qed.

Lemma processInput_what_lines_change_witness :
  backend (snd (processInput sample_host (lit "Where do I live?") []
                  (initial_world sample_store)))
  = sample_store
  /\ session (snd (processInput sample_host (lit "memories") []
                     sample_world))
     = session sample_world.
Proof.
  split.
  - apply (processInput_what_lines_change sample_host
             (lit "Where do I live?") [] (initial_world sample_store));
      vm_compute; discriminate.
  - apply (processInput_what_lines_change sample_host (lit "memories") []
             sample_world).
    vm_compute. tauto.
Defined.

(** ** The mock embedding *)

Lemma add_at_length i x l : length (add_at i x l) = length l.
Proof.
  revert i. induction l as [|y l IH]; intros [|i]; cbn; auto.
Qed.

Lemma accumulate_codes_length text :
  forall i l, length (accumulate_codes i text l) = length l.
Proof.
  induction text as [|c text IH]; intros i l; [reflexivity|].
  cbn [accumulate_codes]. rewrite IH. apply add_at_length.
Qed.

(** X21. The mock embedding of every text has 1536 components. *)
Theorem generateMockEmbedding_dimension :
  forall text : jsstring, length (generateMockEmbedding text) = 1536.
Proof.
  intros text. unfold generateMockEmbedding.
  rewrite length_map, accumulate_codes_length. apply repeat_length.
Qed.

(** X22. The mock embedding of the empty text is not a unit vector: its
    magnitude is 0 and every component is the NaN of 0 / 0. *)
Theorem generateMockEmbedding_empty :
  generateMockEmbedding [] = repeat nan 1536.
Proof. vm_compute. reflexivity. Qed.



Example match_sentences_sample :
  match_sentences Outside [] (lit "..One. Two!? Three? and the rest")
  = [lit "One."; lit " Two!?"; lit " Three?"].
Proof. reflexivity. Qed.

Example group_sentences_sample :
  group_sentences [] [lit "One."; lit " Two!?"; lit " Three?"]
  = [lit "One. Two!?"; lit "Three?"].
Proof. reflexivity. Qed.

(** ** The mocks of the test script *)

Section MockFacts.

Lemma group_sentences_length l :
  length (group_sentences [] l) = (length l + 1) / 2
  /\ forall x, l <> [] ->
               length (group_sentences [x] l) = (length l + 2) / 2.
Proof.
  induction l as [|a rest [IH0 IH1]]; [split; [reflexivity | congruence]|].
  split.
  - cbn [group_sentences app length Nat.leb orb].
    destruct rest as [|b rest'].
    + reflexivity.
    + cbn [length Nat.eqb]. rewrite IH1 by discriminate.
      cbn [length]. f_equal. lia.
  - intros x _. cbn [group_sentences app length Nat.leb orb].
    cbn [length]. rewrite IH0.
    replace (S (length rest) + 2) with (length rest + 1 + 1 * 2) by lia.
    rewrite Nat.div_add by discriminate. lia.
Qed.

Lemma group_sentences_narratives l :
  (forall n, In n (group_sentences [] l) ->
             exists a, In a l
                       /\ (n = trim a
                           \/ exists b, In b l
                                        /\ n = trim a ++ lit " " ++ trim b))
  /\ forall x n, In n (group_sentences [x] l) ->
                 (exists b, In b l /\ n = x ++ lit " " ++ trim b)
                 \/ exists a, In a l
                       /\ (n = trim a
                           \/ exists b, In b l
                                        /\ n = trim a ++ lit " " ++ trim b).
Proof.
  induction l as [|a rest [IH0 IH1]]; [split; intros; contradiction|].
  split.
  - intros n Hn. cbn [group_sentences app length Nat.leb orb] in Hn.
    destruct rest as [|b rest'].
    + cbn in Hn. destruct Hn as [<-|[]].
      exists a. split; [left; reflexivity | left; reflexivity].
    + cbn [length Nat.eqb] in Hn.
      destruct (IH1 (trim a) n Hn) as [[b' [Hb ->]]|[a' [Ha H]]].
      * exists a. split; [left; reflexivity|]. right.
        exists b'. split; [right; exact Hb | reflexivity].
      * exists a'. split; [right; exact Ha|].
        destruct H as [->|[b' [Hb ->]]]; [left; reflexivity|].
        right. exists b'. split; [right; exact Hb | reflexivity].
  - intros x n Hn. cbn [group_sentences app length Nat.leb orb] in Hn.
    destruct Hn as [<-|Hn].
    + left. exists a. split; [left; reflexivity | reflexivity].
    + right. destruct (IH0 n Hn) as [a' [Ha H]].
      exists a'. split; [right; exact Ha|].
      destruct H as [->|[b' [Hb ->]]]; [left; reflexivity|].
      right. exists b'. split; [right; exact Hb | reflexivity].
Qed.

Variable h : Host.

Lemma mapM_mock_chunk l :
  forall w, exists chunks w',
    mapM (mock_chunk h) l w = (Ok chunks, w')
    /\ map narrative chunks = l
    /\ trace w' = repeat CallClock (length l) ++ trace w
    /\ Forall (fun c =>
                 prop "source" (metadata c)
                 = Some (VStr (lit "test_conversation"))
                 /\ prop "chunk_length" (metadata c)
                    = Some (VNum (length (narrative c)))
                 /\ prop "topics" (metadata c) = None) chunks.
Proof.
  induction l as [|x l IH]; intros w.
  - exists [], w. repeat split; constructor.
  - destruct (IH (record_call CallClock w)) as [cs [w' [E [Hn [Ht Hm]]]]].
    eexists (_ :: cs), w'. rewrite mapM_cons.
    unfold mock_chunk at 1, bind at 1, Date_now at 1, ret at 1.
    cbv beta iota. rewrite E.
    split; [reflexivity|]. split; [cbn; rewrite Hn; reflexivity|].
    split.
    + rewrite Ht. cbn [trace record_call length repeat].
      rewrite (repeat_cons (length l) CallClock), <- app_assoc. reflexivity.
    + constructor; [repeat split | exact Hm].
Qed.

End MockFacts.

(** X23. [mockProcessConversations] never throws.  A summary of at most two
    sentences makes one chunk whose narrative is the summary itself; one
    of [n] > 2 sentences makes half of [n] chunks, rounded up, each the
    trimmed text of one sentence or of two joined by a space.  Every chunk
    has the source [test_conversation], the length of its narrative as
    [chunk_length] and no topics. *)
Theorem mockProcessConversations_chunks :
  forall (h : Host) (summary : jsstring) (w : World),
    let n := length (match_sentences Outside [] summary) in
    exists chunks w',
      mockProcessConversations h summary w = (Ok chunks, w')
      /\ (n <= 2 -> map narrative chunks = [summary])
      /\ (2 < n ->
          length chunks = (n + 1) / 2
          /\ forall c, In c chunks ->
               exists a, In a (match_sentences Outside [] summary)
                 /\ (narrative c = trim a
                     \/ exists b, In b (match_sentences Outside [] summary)
                          /\ narrative c = trim a ++ lit " " ++ trim b))
      /\ Forall (fun c =>
                   prop "source" (metadata c)
                   = Some (VStr (lit "test_conversation"))
                   /\ prop "chunk_length" (metadata c)
                      = Some (VNum (length (narrative c)))
                   /\ prop "topics" (metadata c) = None) chunks.
Proof.
  intros h summary w n. subst n. unfold mockProcessConversations.
  destruct (match_sentences Outside [] summary) as [|s1 [|s2 [|s3 rest]]]
    eqn:Em.
  1-3: destruct (mapM_mock_chunk h [summary] w) as [cs [w' [E [Hn [_ Hm]]]]];
    rewrite mapM_cons in E; cbv [mapM ret] in E;
    exists cs, w'; cbn [length Nat.leb];
    split; [unfold bind; destruct (mock_chunk h summary w) as [[c|e] w1];
            [injection E as <- <-; reflexivity | discriminate]|];
    split; [intros _; exact Hn|];
    split; [intros Hlt; cbn in Hlt; lia | exact Hm].
  set (l := s1 :: s2 :: s3 :: rest) in *.
  destruct (mapM_mock_chunk h (group_sentences [] l) w)
    as [cs [w' [E [Hn [_ Hm]]]]].
  exists cs, w'.
  change (length l <=? 2) with false. cbv beta iota.
  split; [exact E|]. split; [intros Hle; cbn in Hle; lia|].
  split; [intros _|exact Hm].
  split.
  - rewrite <- (length_map narrative), Hn.
    apply (proj1 (group_sentences_length l)).
  - intros c Hc.
    apply (proj1 (group_sentences_narratives l)).
    rewrite <- Hn. apply in_map. exact Hc.
Qed.

Section SentenceFacts.

Lemma match_sentences_cover s :
  (forall cur, no_terminator cur ->
     exists rest, cur ++ s = concat (match_sentences Body cur s) ++ rest
                  /\ no_terminator rest)
  /\ (forall cur,
        exists rest, cur ++ s = concat (match_sentences Tail cur s) ++ rest
                     /\ no_terminator rest)
  /\ exists rest,
       dropWhile is_terminator s
       = concat (match_sentences Outside [] s) ++ rest
       /\ no_terminator rest.
Proof.
  induction s as [|c s [IHb [IHt IHo]]].
  - split; [|split].
    + intros cur Hc. exists cur. rewrite app_nil_r. split; [reflexivity|exact Hc].
    + intros cur. exists []. cbn. rewrite !app_nil_r.
      split; [reflexivity | constructor].
    + exists []. split; [reflexivity | constructor].
  - cbn [match_sentences dropWhile].
    destruct (is_terminator c) eqn:Hc.
    + split; [|split].
      * intros cur _. destruct (IHt (cur ++ [c])) as [rest [E Hr]].
        exists rest. rewrite <- E, <- app_assoc. split; [reflexivity|exact Hr].
      * intros cur. destruct (IHt (cur ++ [c])) as [rest [E Hr]].
        exists rest. rewrite <- E, <- app_assoc. split; [reflexivity|exact Hr].
      * exact IHo.
    + assert (H1 : no_terminator [c]) by (constructor; [exact Hc|constructor]).
      split; [|split].
      * intros cur Hcur.
        destruct (IHb (cur ++ [c])) as [rest [E Hr]].
        { apply Forall_app. split; assumption. }
        exists rest. rewrite <- E, <- app_assoc. split; [reflexivity|exact Hr].
      * intros cur. destruct (IHb [c] H1) as [rest [E Hr]].
        exists rest. cbn [concat]. rewrite <- app_assoc, <- E.
        split; [reflexivity | exact Hr].
      * destruct (IHb [c] H1) as [rest [E Hr]].
        exists rest. split; [exact E | exact Hr].
Qed.

End SentenceFacts.

(** X24. The sentences matched in a summary, put end to end, are the summary
    from its first code unit that is not a terminator to its last
    terminator: the terminators at the start and the text after the last
    terminator belong to no sentence. *)
Theorem match_sentences_partition :
  forall summary : jsstring,
    exists rest,
      dropWhile is_terminator summary
      = concat (match_sentences Outside [] summary) ++ rest
      /\ Forall (fun c => is_terminator c = false) rest.
Proof.
  intros summary. exact (proj2 (proj2 (match_sentences_cover summary))).
Qed.

Module DiscordFacts.

Import Discord.
Local Open Scope bot_scope.

Example strip_mentions_sample :
  strip_mentions (lit "<@!123456789> hi <@42>, not <@!> nor <@12")
  = lit " hi , not <@!> nor <@12".
Proof. reflexivity. Qed.

Example split_lines_sample :
  split_lines (lit "a" ++ [13; 10] ++ lit "b" ++ [10; 10] ++ lit "c" ++ [13])%N
  = [lit "a"; lit "b"; []; lit "c" ++ [13%N]].
Proof. reflexivity. Qed.

Example nattochan_speech_sample :
  nattochan_speech (lit "Nattochan: Hmph. Nattochan: again")
  = Some (lit " Hmph. Nattochan: again")
  /\ nattochan_speech (lit "no marker") = None
  /\ nattochan_speech (lit "Nattochan:") = Some [].
Proof. repeat split; reflexivity. Qed.

Example handleAIChat_sample :
  sent (bot_trace (snd (handleAIChat bot_sample_host sample_message None
                          bot_initial_world)))
  = [lit "*plays games*"; lit "Hmph, you again?"].
Proof. vm_compute. reflexivity. Qed.

Section Emits.

Variable P : list BotCall -> Prop.
Hypothesis P_nil : P [].
Hypothesis P_app : forall later earlier, P later -> P earlier ->
                                         P (later ++ earlier).

Lemma emits_bret {A} (a : A) : emits P (bret a).
Proof. intros w. exists []. split; [reflexivity | exact P_nil]. Qed.

Lemma emits_bot_world : emits P bot_world.
Proof. intros w. exists []. split; [reflexivity | exact P_nil]. Qed.

Lemma emits_bbind {A C} (m : B A) (k : A -> B C) :
  emits P m -> (forall a, emits P (k a)) -> emits P (bbind m k).
Proof.
  intros Hm Hk w. unfold bbind. destruct (Hm w) as [c1 [E1 P1]].
  destruct (m w) as [[a|e] w1]; cbn [snd] in E1.
  - destruct (Hk a w1) as [c2 [E2 P2]]. exists (c2 ++ c1).
    rewrite E2, E1, app_assoc. split; [reflexivity | apply P_app; assumption].
  - exists c1. split; [exact E1 | exact P1].
Qed.

Lemma emits_btry_catch {A} (m : B A) handler :
  emits P m -> (forall e, emits P (handler e)) ->
  emits P (btry_catch m handler).
Proof.
  intros Hm Hh w. unfold btry_catch. destruct (Hm w) as [c1 [E1 P1]].
  destruct (m w) as [[a|e] w1]; cbn [snd] in E1.
  - exists c1. split; [exact E1 | exact P1].
  - destruct (Hh e w1) as [c2 [E2 P2]]. exists (c2 ++ c1).
    rewrite E2, E1, app_assoc. split; [reflexivity | apply P_app; assumption].
Qed.

Lemma emits_forEach {A} (f : A -> B unit) l :
  (forall x, emits P (f x)) -> emits P (forEach f l).
Proof.
  intros Hf. induction l as [|x l IH]; [apply emits_bret|].
  cbn [forEach]. apply emits_bbind; [apply Hf | intros _; exact IH].
Qed.

Lemma emits_quiet_update f :
  (forall w, bot_trace (f w) = bot_trace w) -> emits P (bot_update f).
Proof.
  intros Hf w. exists []. split; [apply Hf | exact P_nil].
Qed.

Lemma emits_call {A} (m : B A) c :
  (forall w, snd (m w) = bot_record c w) -> P [c] -> emits P m.
Proof.
  intros Hm Hc w. exists [c]. rewrite Hm. split; [reflexivity | exact Hc].
Qed.

End Emits.

Lemma sent_app later earlier :
  sent (later ++ earlier) = sent later ++ sent earlier.
Proof.
  induction later as [|c later IH]; [reflexivity|].
  destruct c; cbn; rewrite IH; reflexivity.
Qed.

Lemma sent_not_empty calls :
  Forall not_empty_send calls -> Forall (fun s => s <> []) (sent calls).
Proof.
  induction 1 as [|c calls Hc _ IH]; [constructor|].
  destruct c; cbn [sent]; try exact IH.
  constructor; [apply Hc; reflexivity | exact IH].
Qed.

Lemma truthy_nonempty s : truthy s = true <-> s <> [].
Proof. destruct s; cbn; split; congruence. Qed.

Lemma error_notice_nonempty e : error_notice e <> [].
Proof.
  unfold error_notice. destruct (status e) as [s|]; [|discriminate].
  destruct (s =? 401)%N; [discriminate|].
  destruct (s =? 429)%N; discriminate.
Qed.

Lemma ready_trace w : bot_trace (ready w) = bot_trace w.
Proof. unfold ready. destruct (openai w); reflexivity. Qed.

Lemma ready_cache w : conversation_cache (ready w) = conversation_cache w.
Proof. unfold ready. destruct (openai w); reflexivity. Qed.

(** The calls a computation adds all satisfy [Q]. *)
Section Each.

Variable h : BotHost.
Variable Q : BotCall -> Prop.
Hypothesis Q_send : forall content, content <> [] -> Q (BotSend content).
Hypothesis Q_complete : forall req, Q (BotComplete req).
Hypothesis Q_stop : Q BotStopTyping.

Lemma each_call {A} (m : B A) c :
  (forall w, snd (m w) = bot_record c w) -> Q c -> emits (Forall Q) m.
Proof.
  intros Hm Hc. apply (emits_call _ _ c); [exact Hm|].
  constructor; [exact Hc | constructor].
Qed.

Lemma each_app (later earlier : list BotCall) :
  Forall Q later -> Forall Q earlier -> Forall Q (later ++ earlier).
Proof. intros H1 H2. apply Forall_app. split; assumption. Qed.

Lemma each_send content :
  content <> [] -> emits (Forall Q) (send h content).
Proof.
  intros Hc. apply (each_call _ (BotSend content)); [reflexivity|].
  apply Q_send, Hc.
Qed.

Lemma each_send_line i : emits (Forall Q) (send_line h i).
Proof.
  unfold send_line.
  destruct (truthy i) eqn:Hi; [|apply emits_bret; constructor].
  destruct (nattochan_speech i) as [speech|].
  - destruct (truthy (trim speech)) eqn:Ht; [|apply emits_bret; constructor].
    apply each_send, truthy_nonempty, Ht.
  - apply each_send, truthy_nonempty, Hi.
Qed.

Lemma each_deliver message input reply :
  emits (Forall Q) (deliver h message input reply).
Proof.
  assert (Hnil : Forall Q []) by constructor.
  unfold deliver.
  apply emits_bbind; [exact each_app| |intros _].
  { apply emits_forEach; [exact Hnil | exact each_app | apply each_send_line]. }
  apply emits_bbind; [exact each_app| |intros _].
  { apply emits_quiet_update; [exact Hnil | reflexivity]. }
  apply emits_bbind;
    [exact each_app|apply emits_bot_world; exact Hnil|intros w1].
  destruct (conversation_cut_length <=? length (conversation_cache w1));
    [|apply emits_bret; exact Hnil].
  apply emits_bbind; [exact each_app| |intros briefed].
  { eapply each_call; [intros w; reflexivity | apply Q_complete]. }
  apply emits_quiet_update; [exact Hnil | reflexivity].
Qed.

Lemma each_report e : emits (Forall Q) (report h e).
Proof.
  unfold report. apply emits_bbind.
  - exact each_app.
  - apply (each_call _ BotStopTyping); [reflexivity | exact Q_stop].
  - intros _. apply each_send, error_notice_nonempty.
Qed.

Lemma each_delivery message input reply :
  emits (Forall Q)
    (btry_catch (deliver h message input reply) (report h)).
Proof.
  apply emits_btry_catch;
    [exact each_app | apply each_deliver | intros e; apply each_report].
Qed.

End Each.

Section HandlerFacts.

Variable h : BotHost.

Lemma initializeOpenAI_run w :
  initializeOpenAI h w
  = if truthy (apiKey h) then (Ok true, ready w) else (Ok false, w).
Proof.
  unfold initializeOpenAI, ready.
  destruct (truthy (apiKey h)); [|reflexivity].
  cbn [negb]. unfold bbind, bot_world, bot_update, bret.
  destruct (openai w); reflexivity.
Qed.

Lemma handleAIChat_run message currentActivity w :
  handleAIChat h message currentActivity w
  = if truthy (apiKey h) then
      let input := trim (strip_mentions (m_content message)) in
      if truthy input
      then btry_catch (reply_to h message currentActivity input) (report h)
             (ready w)
      else send h say_something (ready w)
    else send h not_configured w.
Proof.
  unfold handleAIChat, bbind. rewrite initializeOpenAI_run.
  destruct (truthy (apiKey h)); [|reflexivity].
  cbv beta iota zeta. cbn [negb].
  destruct (truthy (trim (strip_mentions (m_content message))));
    reflexivity.
Qed.

(** The [try] block up to the answer of the completion. *)
Lemma attempt_run message currentActivity input w :
  let req :=
    reply_request (current_game currentActivity)
      (toLocaleString h (bot_clock h (S (time w))))
      (m_username message) input (conversation_cache w) in
  let asked :=
    bot_record (BotComplete req)
      (bot_record BotClock (bot_record BotStartTyping w)) in
  btry_catch (reply_to h message currentActivity input) (report h) w
  = match bot_complete h (S (S (time w))) req with
    | Ok reply =>
        btry_catch (deliver h message input reply) (report h)
          (bot_record BotStopTyping asked)
    | Err e => report h e asked
    end.
Proof.
  intros req asked.
  unfold btry_catch, reply_to, bbind, startTyping, stopTyping, new_Date,
    bot_world, bot_update, create.
  cbn [bot_trace bot_record conversation_cache length].
  fold req. fold asked.
  destruct (bot_complete h (S (S (time w))) req) as [reply|e]; reflexivity.
Qed.

Lemma cache_kept_send content : cache_kept (send h content).
Proof. intros w. reflexivity. Qed.

Lemma cache_kept_send_line i : cache_kept (send_line h i).
Proof.
  intros w. unfold send_line.
  destruct (truthy i); [|reflexivity].
  destruct (nattochan_speech i) as [speech|]; [|reflexivity].
  destruct (truthy (trim speech)); reflexivity.
Qed.

Lemma cache_kept_forEach {A} (f : A -> B unit) l :
  (forall x, cache_kept (f x)) -> cache_kept (forEach f l).
Proof.
  intros Hf. induction l as [|x l IH]; intros w; [reflexivity|].
  cbn [forEach]. unfold bbind. specialize (Hf x w).
  destruct (f x w) as [[[]|e] w1]; cbn [snd] in Hf.
  - rewrite IH. exact Hf.
  - exact Hf.
Qed.

Lemma cache_kept_report e : cache_kept (report h e).
Proof. intros w. reflexivity. Qed.

(** A cache below the cut length is below it after the delivery of a
    reply, if the summaries are answered. *)
Lemma deliver_cache_short message input reply w :
  brief_answers h ->
  length (conversation_cache w) < conversation_cut_length ->
  length (conversation_cache
            (snd (btry_catch (deliver h message input reply) (report h) w)))
  < conversation_cut_length.
Proof.
  intros Hbrief Hlen. unfold btry_catch, deliver.
  unfold bbind at 1.
  pose proof (cache_kept_forEach (send_line h) (split_lines reply)
                cache_kept_send_line w) as Hkept.
  destruct (forEach (send_line h) (split_lines reply) w) as [[[]|e] w1];
    cbn [snd] in Hkept.
  2:{ rewrite cache_kept_report. rewrite Hkept. exact Hlen. }
  unfold bbind, bot_update, bot_world.
  cbn [conversation_cache set_conversation_cache].
  destruct (conversation_cut_length
            <=? length (conversation_cache w1 ++ _)) eqn:Hcut.
  - unfold create.
    match goal with
    | |- context [bot_complete h ?t (brief_request ?c)] =>
        destruct (Hbrief t c) as [briefed ->]
    end.
    cbn. unfold conversation_cut_length. lia.
  - cbn [snd conversation_cache set_conversation_cache].
    apply Nat.leb_gt in Hcut. exact Hcut.
Qed.

(** X25. Without an API key, or when nothing but white space is left of the
    message once the mentions are removed, the handler sends one notice
    and does nothing else: it asks for no completion, shows no typing
    indicator and leaves the conversation cache as it was.  What it
    returns is what that one [send] gives. *)
Theorem handleAIChat_declines message currentActivity w :
  truthy (apiKey h) = false
  \/ trim (strip_mentions (m_content message)) = [] ->
  exists w',
    handleAIChat h message currentActivity w = (send_outcome h (time w), w')
    /\ bot_trace w'
       = BotSend (if truthy (apiKey h) then say_something
                  else not_configured) :: bot_trace w
    /\ conversation_cache w' = conversation_cache w.
Proof.
  intros Hwhy. rewrite handleAIChat_run.
  destruct (truthy (apiKey h)) eqn:Hkey.
  - destruct Hwhy as [Hwhy | Hwhy]; [discriminate|].
    cbv zeta. rewrite Hwhy. cbn [truthy length Nat.eqb negb].
    unfold send, send_outcome. rewrite ready_trace.
    exists (bot_record (BotSend say_something) (ready w)).
    split; [reflexivity|]. cbn [bot_trace bot_record conversation_cache].
    rewrite ready_trace, ready_cache. split; reflexivity.
  - eexists. split; [reflexivity|]. split; reflexivity.
Qed.

(** X26. When the completion for the reply fails, the handler stops the typing
    indicator and sends the notice chosen by the status of the error (401,
    429, or any other); the conversation cache is left as it was, and no
    second completion is asked for. *)
Theorem handleAIChat_reports_failure message currentActivity w e :
  let input := trim (strip_mentions (m_content message)) in
  let req :=
    reply_request (current_game currentActivity)
      (toLocaleString h (bot_clock h (S (time w))))
      (m_username message) input (conversation_cache w) in
  truthy (apiKey h) = true ->
  input <> [] ->
  bot_complete h (S (S (time w))) req = Err e ->
  exists w',
    handleAIChat h message currentActivity w
    = (send_outcome h (4 + time w), w')
    /\ bot_trace w'
       = BotSend (error_notice e) :: BotStopTyping :: BotComplete req
         :: BotClock :: BotStartTyping :: bot_trace w
    /\ conversation_cache w' = conversation_cache w.
Proof.
  intros input req Hkey Hinput Hfail. rewrite handleAIChat_run, Hkey.
  cbv zeta. fold input. apply truthy_nonempty in Hinput. rewrite Hinput.
  rewrite attempt_run. cbv zeta.
  rewrite !ready_trace, !ready_cache. fold req. rewrite Hfail.
  unfold report, bbind, stopTyping, bot_update, send, send_outcome.
  cbn [bot_trace bot_record conversation_cache length].
  rewrite !ready_trace.
  exists (bot_record (BotSend (error_notice e))
            (bot_record BotStopTyping
               (bot_record (BotComplete req)
                  (bot_record BotClock
                     (bot_record BotStartTyping (ready w)))))).
  split; [reflexivity|].
  cbn [bot_trace bot_record conversation_cache].
  rewrite ready_trace, ready_cache. split; reflexivity.
Qed.

(** X27. As long as the requests for a summary are answered, a conversation
    cache shorter than the cut length of 7 is shorter than 7 again after
    any message, whatever the other calls answer. *)
Theorem handleAIChat_cache_short message currentActivity w :
  brief_answers h ->
  length (conversation_cache w) < conversation_cut_length ->
  length (conversation_cache (snd (handleAIChat h message currentActivity w)))
  < conversation_cut_length.
Proof.
  intros Hbrief Hlen. rewrite handleAIChat_run.
  destruct (truthy (apiKey h)); [|exact Hlen].
  cbv zeta.
  destruct (truthy (trim (strip_mentions (m_content message)))).
  2:{ rewrite cache_kept_send, ready_cache. exact Hlen. }
  rewrite attempt_run. cbv zeta.
  destruct (bot_complete h _ _) as [reply|e].
  - apply deliver_cache_short; [exact Hbrief|].
    cbn [conversation_cache bot_record]. rewrite ready_cache. exact Hlen.
  - rewrite cache_kept_report. cbn [conversation_cache bot_record].
    rewrite ready_cache. exact Hlen.
Qed.

(** X28. Once there is input to answer, the typing indicator is started once,
    and it is stopped right after the completion has been asked for,
    whether that completion succeeds or fails and before anything is sent;
    nothing that follows starts it again. *)
Theorem handleAIChat_typing_stops message currentActivity w :
  truthy (apiKey h) = true ->
  trim (strip_mentions (m_content message)) <> [] ->
  exists later req,
    bot_trace (snd (handleAIChat h message currentActivity w))
    = later ++ BotStopTyping :: BotComplete req :: BotClock
        :: BotStartTyping :: bot_trace w
    /\ Forall (fun c => c <> BotStartTyping) later.
Proof.
  intros Hkey Hinput. rewrite handleAIChat_run, Hkey. cbv zeta.
  apply truthy_nonempty in Hinput. rewrite Hinput.
  rewrite attempt_run. cbv zeta.
  destruct (bot_complete h _ _) as [reply|e].
  - destruct (each_delivery h (fun c => c <> BotStartTyping)
                ltac:(discriminate) ltac:(discriminate) ltac:(discriminate)
                message (trim (strip_mentions (m_content message))) reply
                (bot_record BotStopTyping
                   (bot_record (BotComplete
                      (reply_request (current_game currentActivity)
                         (toLocaleString h
                            (bot_clock h (S (time (ready w)))))
                         (m_username message)
                         (trim (strip_mentions (m_content message)))
                         (conversation_cache (ready w))))
                      (bot_record BotClock
                         (bot_record BotStartTyping (ready w))))))
      as [later [Hlater Heach]].
    exists later. eexists. rewrite Hlater.
    cbn [bot_trace bot_record]. rewrite ready_trace.
    split; [reflexivity | exact Heach].
  - exists [BotSend (error_notice e)]. eexists.
    unfold report, bbind, stopTyping, bot_update, send.
    cbn [bot_trace bot_record snd app]. rewrite ready_trace.
    split; [reflexivity|]. constructor; [discriminate | constructor].
Qed.

(** X29. The handler only adds calls to its trace, and no message it sends is
    empty: an empty line of the reply, and a line with nothing but white
    space after [Nattochan:], are skipped. *)
Theorem handleAIChat_sends_no_empty_message message currentActivity w :
  exists calls,
    bot_trace (snd (handleAIChat h message currentActivity w))
    = calls ++ bot_trace w
    /\ Forall (fun content => content <> []) (sent calls).
Proof.
  assert (Hsend : forall content, content <> [] ->
                                  not_empty_send (BotSend content)).
  { intros content Hc c' [= <-]. exact Hc. }
  assert (Hone : forall content, content <> [] ->
            exists calls,
              BotSend content :: bot_trace w = calls ++ bot_trace w
              /\ Forall (fun content => content <> []) (sent calls)).
  { intros content Hc. exists [BotSend content].
    split; [reflexivity|]. constructor; [exact Hc | constructor]. }
  rewrite handleAIChat_run.
  destruct (truthy (apiKey h)); [|apply Hone; discriminate].
  cbv zeta.
  destruct (truthy (trim (strip_mentions (m_content message)))).
  2:{ cbn [send snd bot_trace bot_record]. rewrite ready_trace.
      apply Hone; discriminate. }
  rewrite attempt_run. cbv zeta.
  destruct (bot_complete h _ _) as [reply|e].
  - match goal with
    | |- context [btry_catch _ _ ?w0] =>
        destruct (each_delivery h not_empty_send Hsend
                    ltac:(intros req c [=]) ltac:(intros c [=])
                    message (trim (strip_mentions (m_content message)))
                    reply w0) as [later [Hlater Heach]]
    end.
    rewrite Hlater. cbn [bot_trace bot_record]. rewrite ready_trace.
    eexists (later ++ [BotStopTyping; BotComplete _; BotClock;
                       BotStartTyping]).
    rewrite <- app_assoc. split; [reflexivity|].
    rewrite sent_app, app_nil_r. apply sent_not_empty, Heach.
  - unfold report, bbind, stopTyping, bot_update, send.
    cbn [bot_trace bot_record snd]. rewrite ready_trace.
    eexists [BotSend (error_notice e); BotStopTyping; BotComplete _;
             BotClock; BotStartTyping].
    split; [reflexivity|].
    constructor; [apply error_notice_nonempty | constructor].
Qed.

End HandlerFacts.

Lemma handleAIChat_declines_witness :
  exists w',
    handleAIChat bot_sample_host
      {| m_content := lit "<@!123456789>  "; m_username := lit "knilios" |}
      None bot_initial_world
    = (Ok tt, w')
    /\ bot_trace w' = [BotSend say_something]
    /\ conversation_cache w' = [].
Proof.
  apply (handleAIChat_declines bot_sample_host
           {| m_content := lit "<@!123456789>  ";
              m_username := lit "knilios" |} None bot_initial_world).
  right. reflexivity.
Defined.

Lemma handleAIChat_reports_failure_witness :
  exists w',
    handleAIChat bot_offline_host sample_message None bot_initial_world
    = (Ok tt, w')
    /\ bot_trace w'
       = [ BotSend (lit "Too many requests. Please try again later.");
           BotStopTyping;
           BotComplete
             (reply_request (lit "games") (lit "1700000000001")
                (lit "knilios") (lit "hello there") []);
           BotClock; BotStartTyping ]
    /\ conversation_cache w' = [].
Proof.
  apply (handleAIChat_reports_failure bot_offline_host sample_message None
           bot_initial_world rate_limited).
  - reflexivity.
  - discriminate.
  - reflexivity.
Defined.

Lemma handleAIChat_cache_short_witness :
  length (conversation_cache
            (snd (handleAIChat bot_sample_host sample_message None
                    bot_initial_world))) < 7.
Proof.
  apply (handleAIChat_cache_short bot_sample_host sample_message None
           bot_initial_world).
  - intros t cache. exists (lit "They greeted each other."). reflexivity.
  - unfold conversation_cut_length. cbn. lia.
Defined.

Lemma handleAIChat_typing_stops_witness :
  exists later req,
    bot_trace (snd (handleAIChat bot_sample_host sample_message None
                      bot_initial_world))
    = later ++ [BotStopTyping; BotComplete req; BotClock; BotStartTyping]
    /\ Forall (fun c => c <> BotStartTyping) later.
Proof.
  apply (handleAIChat_typing_stops bot_sample_host sample_message None
           bot_initial_world).
  - reflexivity.
  - discriminate.
Defined.

End DiscordFacts.
